(** * train_imagenet.py: metric aggregation, evaluation protocol, checkpoints

    A shallow embedding of [src/train_imagenet.py].

    Conventions of the embedding:
    - Python floats and the entries of float tensors are exact rationals
      ([Q]); Python ints that are mixed with them are rationals too.
    - A raised exception is the [Err] case of [result]; the program has no
      [try]/[except] around the modelled code, so the state left behind by
      a raising call is never observed.
    - A tensor of shape (B, C) is a list of B rows; its second dimension is
      carried next to it, because an empty list of rows does not determine
      it.
    - [torch.distributed] is an external library.  The calls a worker issues
      are recorded as a trace of [call]s and the values an all-reduce
      returns come from a closure, as in the source ([functools.partial]). *)

From Stdlib Require Import List ZArith QArith Lia Lqa Bool Arith PeanoNat Permutation Sorted.
From stdpp Require Import base gmap strings pretty.
Import ListNotations.

Local Open Scope nat_scope.

(** ** Exceptions and the error monad *)

Inductive exn : Type :=
  | ValueError          (* max() of an empty sequence *)
  | RuntimeError        (* raised by torch: topk index out of range, shape mismatch *)
  | ZeroDivisionError   (* Python [/] or [%] by zero *)
  | AttributeError      (* attribute read on a Namespace that lacks it *)
  | UnboundLocalError   (* loop variable read after a loop that never ran *)
  | SameFileError       (* shutil.copyfile of a file onto itself *)
  | FileNotFoundError   (* shutil.copyfile of a file that does not exist *)
  | NonFinite.          (* no exception: a float became inf or nan, which the
                           rational model cannot hold *)

Inductive result (A : Type) : Type :=
  | Ok (a : A)
  | Err (e : exn).
Arguments Ok {A} a.
Arguments Err {A} e.

Definition bind {A B : Type} (m : result A) (k : A -> result B) : result B :=
  match m with
  | Ok a => k a
  | Err e => Err e
  end.

Notation "'let!' x ':=' m 'in' k" := (bind m (fun x => k))
  (at level 10, x name, m at level 100, k at level 200).

(** Python's true division [a / b]. *)
Definition py_div (a b : Q) : result Q :=
  if Qeq_bool b 0 then Err ZeroDivisionError else Ok (a / b)%Q.

(** ** class AverageMeter (lines 327-343) *)

Module AverageMeter.

Record t : Type := mk { val : Q; avg : Q; sum : Q; count : Q }.

(** [reset] overwrites the four attributes, whatever they were. *)
Definition reset (self : t) : t :=
  {| val := 0; avg := 0; sum := 0; count := 0 |}.

(** [__init__] calls [reset] on the object under construction. *)
Definition init : t := reset {| val := 0; avg := 0; sum := 0; count := 0 |}.

(** [update(val, n=1)]: the three assignments, then [self.sum / self.count],
    which raises when the accumulated count is zero. *)
Definition update (self : t) (v n : Q) : result t :=
  let sum' := (sum self + v * n)%Q in
  let count' := (count self + n)%Q in
  let! avg' := py_div sum' count' in
  Ok {| val := v; avg := avg'; sum := sum'; count := count' |}.

(** A sequence of [update] calls, in order. *)
Fixpoint updates (self : t) (us : list (Q * Q)) : result t :=
  match us with
  | [] => Ok self
  | (v, n) :: us' => let! self' := update self v n in updates self' us'
  end.

End AverageMeter.

(** The accumulated sums the specification speaks of, over the whole
    sequence of (value, weight) pairs, in the order of the calls. *)
Definition add_weighted (acc : Q) (u : Q * Q) : Q := (acc + fst u * snd u)%Q.

Definition add_weight (acc : Q) (u : Q * Q) : Q := (acc + snd u)%Q.

Definition weighted_sum (us : list (Q * Q)) : Q := fold_left add_weighted us 0%Q.

Definition total_weight (us : list (Q * Q)) : Q := fold_left add_weight us 0%Q.

(** ** accuracy_sum (lines 346-359) *)

(** [output.topk(maxk, 1, True, True)] on one row: the column indices of the
    [maxk] largest scores, largest first.  torch leaves the order of equal
    scores open; the model breaks ties towards the smaller index (a stable
    insertion sort of the indices). *)
Fixpoint insert_desc (row : list Q) (i : nat) (sorted : list nat) : list nat :=
  match sorted with
  | [] => [i]
  | j :: rest =>
      if Qle_bool (nth i row 0%Q) (nth j row 0%Q)
      then j :: insert_desc row i rest
      else i :: j :: rest
  end.

Definition argsort_desc (row : list Q) : list nat :=
  fold_left (fun sorted i => insert_desc row i sorted) (seq 0 (length row)) [].

Definition topk_row (k : nat) (row : list Q) : list nat :=
  firstn k (argsort_desc row).

(** [tensor.topk(k, 1, True, True)] on a (B, classes) tensor; torch raises
    when [k] exceeds the size of the dimension, also on an empty batch. *)
Definition topk (k classes : nat) (output : list (list Q)) : result (list (list nat)) :=
  if classes <? k then Err RuntimeError
  else if forallb (fun row => length row =? classes) output
       then Ok (map (topk_row k) output)
       else Err RuntimeError.

(** [pred.t()] for a tensor of shape (B, ncols). *)
Definition transpose (ncols : nat) (m : list (list nat)) : list (list nat) :=
  map (fun j => map (fun row => nth j row 0) m) (seq 0 ncols).

(** [target.view(1, -1).expand_as(pred)] for [pred] of shape (maxk, B): the
    single row is repeated along dimension 0; along dimension 1 the sizes
    must agree unless the target has exactly one element, which is
    broadcast. *)
Definition expand_target (target : list nat) (b : nat) : result (list nat) :=
  if length target =? b then Ok target
  else if length target =? 1 then Ok (repeat (hd 0 target) b)
  else Err RuntimeError.

(** [pred.eq(...)], row by row. *)
Definition eq_rows (pred : list (list nat)) (target : list nat) : list (list bool) :=
  map (fun row => map (fun p => Nat.eqb (fst p) (snd p)) (combine row target)) pred.

(** [correct[:k].view(-1).float().sum(0, keepdim=True)]. *)
Definition sum_correct (k : nat) (correct : list (list bool)) : nat :=
  length (List.filter (fun b : bool => b) (concat (firstn k correct))).

(** [correct_k.mul_(100.0)]. *)
Definition mul_100 (c : nat) : Q := (inject_Z (Z.of_nat c) * 100)%Q.

(** Python's [max] over a tuple of ranks. *)
Definition py_max (topk : list nat) : result nat :=
  match topk with
  | [] => Err ValueError
  | k :: ks => Ok (fold_left Nat.max ks k)
  end.

Definition accuracy_sum (classes : nat) (output : list (list Q))
    (target : list nat) (topk_ranks : list nat) : result (list Q) :=
  let! maxk := py_max topk_ranks in
  let batch_size := length target in
  let! pred := topk maxk classes output in
  let pred := transpose maxk pred in
  let! expanded := expand_target target (length output) in
  let correct := eq_rows pred expanded in
  Ok (map (fun k => mul_100 (sum_correct k correct)) topk_ranks).

(** The specification's reading of one entry: the number of samples whose
    true label is among the [k] highest-scored classes. *)
Definition label_in_topk (k : nat) (sample : list Q * nat) : bool :=
  existsb (Nat.eqb (snd sample)) (topk_row k (fst sample)).

Definition count_in_topk (k : nat) (output : list (list Q)) (target : list nat) : nat :=
  length (List.filter (label_in_topk k) (combine output target)).

(** The samples whose true label sits at position [j] of the ranking that
    [topk] returns for [maxk]. *)
Definition column_hits (maxk j : nat) (samples : list (list Q * nat)) : nat :=
  length (List.filter (fun b : bool => b)
            (map (fun s => Nat.eqb (nth j (topk_row maxk (fst s)) 0) (snd s)) samples)).

(** ** torch.distributed, as one worker sees it *)

(** A process group handle: the default group or one made by
    [dist.new_group(ranks)]. *)
Inductive group : Type :=
  | World
  | Sub (ranks : list nat).

(** The collective calls the program issues. *)
Inductive call : Type :=
  | AllReduce (g : group)          (* dist.all_reduce(t, op=SUM, group=g) *)
  | NewGroup (ranks : list nat).   (* dist.new_group(ranks) *)

#[global] Instance group_eq_dec : EqDecision group.
Proof. solve_decision. Defined.

#[global] Instance call_eq_dec : EqDecision call.
Proof. solve_decision. Defined.

(** The four tensors reduced for one batch, in the order of the calls. *)
Inductive slot : Type := Count | Loss | Prec1 | Prec5.

(** [partial(dist.all_reduce, op=dist.ReduceOp.SUM[, group=g])]: the group it
    is bound to and what the call leaves in the tensor. *)
Record reducer : Type := partial {
  red_group : group;
  red_apply : slot -> Q -> Q
}.

(** The library state a worker reads.  [dist_all_reduce i g sl x] is the content
    of the tensor after the all-reduce over [g] issued for slot [sl] of
    batch [i], when it held [x] before. *)
Record dist : Type := {
  is_initialized : bool;
  get_rank : nat;
  get_world_size : nat;
  dist_all_reduce : nat -> group -> slot -> Q -> Q
}.

(** ** Batches and meters *)

(** One element of a loader, with what the external model and criterion
    return for it: [output = model(input)] of shape (B, classes) and
    [loss = criterion(output, target)]. *)
Record batch : Type := {
  classes : nat;
  output : list (list Q);
  target : list nat;
  loss : Q
}.

(** [input.shape[0]] and [target.shape[0]]: the loader collates both from
    the same samples. *)
Definition shape0 (b : batch) : nat := length (target b).

(** The meters of one pass; [batch_time] measures wall-clock time and is
    left out. *)
Record meters : Type := {
  losses : AverageMeter.t;
  top1 : AverageMeter.t;
  top5 : AverageMeter.t
}.

Definition meters_init : meters :=
  {| losses := AverageMeter.init; top1 := AverageMeter.init; top5 := AverageMeter.init |}.

(** The local tensors of one batch before any reduction. *)
Record stats : Type := {
  s_count : Q;
  s_loss : Q;
  s_prec1 : Q;
  s_prec5 : Q
}.

Definition select (sl : slot) (s : stats) : Q :=
  match sl with
  | Count => s_count s
  | Loss => s_loss s
  | Prec1 => s_prec1 s
  | Prec5 => s_prec5 s
  end.

(** A float tensor divided in place by a Python number.  torch does not
    raise on a zero divisor: the tensor then holds inf or nan, and the model
    stops there with [NonFinite]. *)
Definition tensor_div (a b : Q) : result Q :=
  if Qeq_bool b 0 then Err NonFinite else Ok (a / b)%Q.

(** The body of [for meter, val in ...]: reduce, divide, update. *)
Definition reduce_and_update (reduce : option (Q -> Q)) (count : Q)
    (meter : AverageMeter.t) (v : Q) : result AverageMeter.t :=
  let v := match reduce with Some f => f v | None => v end in
  let! v := tensor_div v count in
  AverageMeter.update meter v count.

(** ** validate: process (lines 263-283) *)

(** Lines 266-276: the local sums of one batch. *)
Definition local_statistics (b : batch) : result stats :=
  let! res := accuracy_sum (classes b) (output b) (target b) [1; 5] in
  match res with
  | [prec1; prec5] =>
      let n := inject_Z (Z.of_nat (shape0 b)) in
      Ok {| s_count := n; s_loss := (loss b * n)%Q; s_prec1 := prec1; s_prec5 := prec5 |}
  | _ => Err ValueError
  end.

Definition process (input : batch) (all_reduce : option reducer) (m : meters)
    : result (meters * list call) :=
  let! s := local_statistics input in
  let reduce sl := option_map (fun r => red_apply r sl) all_reduce in
  let issued := match all_reduce with Some r => [AllReduce (red_group r)] | None => [] end in
  let count := match reduce Count with Some f => f (s_count s) | None => s_count s end in
  let! losses' := reduce_and_update (reduce Loss) count (losses m) (s_loss s) in
  let! top1' := reduce_and_update (reduce Prec1) count (top1 m) (s_prec1 s) in
  let! top5' := reduce_and_update (reduce Prec5) count (top5 m) (s_prec5 s) in
  Ok ({| losses := losses'; top1 := top1'; top5 := top5' |},
      issued ++ issued ++ issued ++ issued).

(** ** validate (lines 248-318) *)

Record validated : Type := {
  v_steps : list (list call);   (* the calls of each loop iteration *)
  v_post : list call;           (* the calls after the loop *)
  v_meters : meters;
  v_return : Q                  (* top1.avg *)
}.

(** Lines 289-292, for batch [i] of the loader. *)
Definition validate_step (d : dist) (last_group_size : nat) (i : nat)
    (input : batch) (m : meters) : result (meters * list call) :=
  let all_reduce :=
    if is_initialized d then Some (partial World (dist_all_reduce d i World)) else None in
  if (1 <? shape0 input) || (last_group_size =? 0)
  then process input all_reduce m
  else
    let ranks := seq 0 last_group_size in
    let! r := process input (Some (partial (Sub ranks) (dist_all_reduce d i (Sub ranks)))) m in
    Ok (fst r, NewGroup ranks :: snd r).

Fixpoint validate_loop (d : dist) (last_group_size : nat) (i : nat)
    (val_loader : list batch) (m : meters) : result (meters * list (list call)) :=
  match val_loader with
  | [] => Ok (m, [])
  | input :: rest =>
      let! r := validate_step d last_group_size i input m in
      let! r' := validate_loop d last_group_size (S i) rest (fst r) in
      Ok (fst r', snd r :: snd r')
  end.

(** [dataset_len] is [len(val_loader.dataset)], the size of the whole
    validation set, not of this worker's share. *)
Definition validate (d : dist) (dataset_len : nat) (val_loader : list batch)
    : result validated :=
  let rank := if is_initialized d then get_rank d else 0 in
  let world_size := if is_initialized d then get_world_size d else 1 in
  if world_size =? 0 then Err ZeroDivisionError
  else
    let last_group_size := dataset_len mod world_size in
    let! r := validate_loop d last_group_size 0 val_loader meters_init in
    match last val_loader with
    | None => Err UnboundLocalError
    | Some input =>
        let post :=
          if (shape0 input =? 1) && ((last_group_size <? rank) && (0 <? last_group_size))
          then [NewGroup (seq 0 last_group_size)]
          else [] in
        Ok {| v_steps := snd r; v_post := post; v_meters := fst r;
              v_return := AverageMeter.avg (top1 (fst r)) |}
    end.

(** ** train: the metric block of the loop body (lines 209-220) *)

Definition train_step (d : dist) (i : nat) (b : batch) (m : meters)
    : result (meters * list call) :=
  let n := inject_Z (Z.of_nat (shape0 b)) in
  let loss := (loss b * n)%Q in
  let! res := accuracy_sum (classes b) (output b) (target b) [1; 5] in
  match res with
  | [prec1; prec5] =>
      let reduce sl := if is_initialized d then Some (dist_all_reduce d i World sl) else None in
      let issued := if is_initialized d then [AllReduce World] else [] in
      let count := match reduce Count with Some f => f n | None => n end in
      let! losses' := reduce_and_update (reduce Loss) count (losses m) loss in
      let! top1' := reduce_and_update (reduce Prec1) count (top1 m) prec1 in
      let! top5' := reduce_and_update (reduce Prec5) count (top5 m) prec5 in
      Ok ({| losses := losses'; top1 := top1'; top5 := top5' |},
          issued ++ issued ++ issued ++ issued)
  | _ => Err ValueError
  end.

Fixpoint train_loop (d : dist) (i : nat) (train_loader : list batch) (m : meters)
    : result (meters * list (list call)) :=
  match train_loader with
  | [] => Ok (m, [])
  | b :: rest =>
      let! r := train_step d i b m in
      let! r' := train_loop d (S i) rest (fst r) in
      Ok (fst r', snd r :: snd r')
  end.

Definition train (d : dist) (train_loader : list batch) : result (meters * list (list call)) :=
  train_loop d 0 train_loader meters_init.

(** ** A simulated job: one loader per worker, mocked collectives *)

Definition sum_Q (l : list Q) : Q := fold_right Qplus 0%Q l.

Definition member (r : nat) (g : group) : bool :=
  match g with
  | World => true
  | Sub ranks => existsb (Nat.eqb r) ranks
  end.

(** The group a worker addresses for a batch (the test of line 289). *)
Definition step_group (last_group_size : nat) (b : batch) : group :=
  if (1 <? shape0 b) || (last_group_size =? 0) then World
  else Sub (seq 0 last_group_size).

(** The local tensor of slot [sl] for batch [i] of a loader; zero when the
    loader has no such batch. *)
Definition local_sum (loader : list batch) (i : nat) (sl : slot) : Q :=
  match loader !! i with
  | Some b => match local_statistics b with Ok s => select sl s | Err _ => 0%Q end
  | None => 0%Q
  end.

(** What worker [r] puts into slot [sl] of the all-reduce over [g] for its
    batch [i]: nothing when it has no such batch, addresses another group
    for it ([choose] is the group a worker addresses for a batch), or is not
    a member of [g]. *)
Definition contribution (choose : batch -> group) (loader : list batch)
    (r i : nat) (g : group) (sl : slot) : Q :=
  match loader !! i with
  | Some b =>
      if bool_decide (choose b = g) && member r g then local_sum loader i sl else 0%Q
  | None => 0%Q
  end.

(** The mocked all-reduce of worker [r]: a member receives the sum over the
    workers' tensors, its own being [x]; a worker that is not a member of
    the group gets its tensor back unchanged, as torch does. *)
Definition mock_all_reduce (choose : batch -> group) (loaders : list (list batch))
    (r i : nat) (g : group) (sl : slot) (x : Q) : Q :=
  if member r g
  then sum_Q (map (fun r' => if r' =? r then x
                             else contribution choose (nth r' loaders []) r' i g sl)
                (seq 0 (length loaders)))
  else x.

(** Worker [r] of a job; the process group is initialised only when there
    is more than one worker (lines 72-83). *)
Definition worker (choose : batch -> group) (loaders : list (list batch)) (r : nat) : dist :=
  {| is_initialized := 1 <? length loaders;
     get_rank := r;
     get_world_size := length loaders;
     dist_all_reduce := mock_all_reduce choose loaders r |}.

(** In an evaluation pass the group follows line 289; in training every
    all-reduce is over the default group. *)
Definition val_worker (loaders : list (list batch)) (dataset_len : nat) (r : nat) : dist :=
  worker (step_group (dataset_len mod length loaders)) loaders r.

Definition train_worker (loaders : list (list batch)) (r : nat) : dist :=
  worker (fun _ => World) loaders r.

(** The sum over all workers of their local tensors for batch [i], computed
    centrally. *)
Definition central_sum (loaders : list (list batch)) (i : nat) (sl : slot) : Q :=
  sum_Q (map (fun r => local_sum (nth r loaders []) i sl) (seq 0 (length loaders))).

(** The calls of a whole evaluation pass of worker [r], in order. *)
Definition validate_calls (loaders : list (list batch)) (dataset_len : nat) (r : nat)
    : result (list call) :=
  let! v := validate (val_worker loaders dataset_len r) dataset_len (nth r loaders []) in
  Ok (concat (v_steps v) ++ v_post v).

Definition job_calls (loaders : list (list batch)) (dataset_len : nat)
    : list (result (list call)) :=
  map (validate_calls loaders dataset_len) (seq 0 (length loaders)).

(** *** Matching the collectives

    [dist.new_group] and an all-reduce over the default group return once
    every worker of the job has entered the same call; an all-reduce over a
    subgroup returns once every member has entered it, and at once for a
    worker that is not a member. *)
Definition participants (world_size r : nat) (c : call) : list nat :=
  match c with
  | AllReduce (Sub ranks) => if existsb (Nat.eqb r) ranks then ranks else [r]
  | AllReduce World | NewGroup _ => seq 0 world_size
  end.

Definition waits_at (c : call) (pending : list call) : bool :=
  match pending with
  | c' :: _ => bool_decide (c = c')
  | [] => false
  end.

(** The workers released together with [r], if [r]'s pending call is
    matched by all of its participants. *)
Definition released (st : list (list call)) (r : nat) : option (list nat) :=
  match nth r st [] with
  | [] => None
  | c :: _ =>
      let ps := participants (length st) r c in
      if forallb (fun p => waits_at c (nth p st [])) ps then Some ps else None
  end.

Fixpoint first_released (st : list (list call)) (rs : list nat) : option (list nat) :=
  match rs with
  | [] => None
  | r :: rs' =>
      match released st r with
      | Some ps => Some ps
      | None => first_released st rs'
      end
  end.

Definition advance (ps : list nat) (st : list (list call)) : list (list call) :=
  imap (fun r pending => if existsb (Nat.eqb r) ps then tl pending else pending) st.

Inductive outcome : Type :=
  | Completed
  | Deadlock (st : list (list call))   (* what each worker still has to issue *)
  | OutOfFuel.

Fixpoint run (fuel : nat) (st : list (list call)) : outcome :=
  if forallb (fun pending => match pending with [] => true | _ => false end) st
  then Completed
  else
    match fuel with
    | 0 => OutOfFuel
    | S fuel' =>
        match first_released st (seq 0 (length st)) with
        | Some ps => run fuel' (advance ps st)
        | None => Deadlock st
        end
    end.

(** Every released collective consumes a call, so the number of calls is
    enough fuel. *)
Definition run_job (st : list (list call)) : outcome :=
  run (S (length (concat st))) st.

(** A batch of [n] samples over five classes, each scored 1..5 and labelled
    with the best class; the criterion's value is 1/2. *)
Definition batch_of (n : nat) : batch :=
  {| classes := 5;
     output := repeat [1; 2; 3; 4; 5]%Q n;
     target := repeat 4 n;
     loss := (1 # 2)%Q |}.

(** The same batch with another value of the criterion. *)
Definition with_loss (b : batch) (l : Q) : batch :=
  {| classes := classes b; output := output b; target := target b; loss := l |}.

(** Well-formed batches: shapes agree, the batch is not empty and the model
    has at least the five classes that [topk=(1, 5)] asks for. *)
Definition batch_ok (b : batch) : bool :=
  (length (output b) =? length (target b))
  && forallb (fun row => length row =? classes b) (output b)
  && (5 <=? classes b)
  && (0 <? length (target b)).

(** Modelled from the spec: the validation data source ([dataset/sampler.py]
    behind the [DataLoader]), which is not among the sources.  Of
    [dataset_len] samples every worker receives [dataset_len / world_size],
    and the workers of rank below [dataset_len mod world_size] one more; a
    worker's samples come in batches of [batch_size], the last one short. *)
Definition shard_len (world_size dataset_len r : nat) : nat :=
  dataset_len / world_size + (if r <? dataset_len mod world_size then 1 else 0).

Definition loader_of (batch_size n : nat) : list batch :=
  repeat (batch_of batch_size) (n / batch_size)
  ++ (if n mod batch_size =? 0 then [] else [batch_of (n mod batch_size)]).

Definition job (world_size dataset_len batch_size : nat) : list (list batch) :=
  map (fun r => loader_of batch_size (shard_len world_size dataset_len r))
      (seq 0 world_size).

(** The calls still pending when the simulated pass stops. *)
Definition pending_calls (loaders : list (list batch)) (dataset_len : nat)
    : list (list call) :=
  map (fun c => match c with Ok calls => calls | Err _ => [] end)
      (job_calls loaders dataset_len).

Definition new_groups (calls : list call) : nat :=
  length (List.filter (fun c => match c with NewGroup _ => true | _ => false end) calls).

(** The simulated pass completes: no worker raises and every collective is
    matched. *)
Definition pass_completes (loaders : list (list batch)) (dataset_len : nat) : bool :=
  forallb (fun c => match c with Ok _ => true | Err _ => false end)
          (job_calls loaders dataset_len)
  && match run_job (pending_calls loaders dataset_len) with
     | Completed => true
     | _ => false
     end.

(** *** Vocabulary of the statements *)

(** The mocked library never reports an empty group: a positive local
    count stays positive through the all-reduce. *)
Definition count_positive (d : dist) : Prop :=
  forall i g x, (0 < x)%Q -> (0 < dist_all_reduce d i g Count x)%Q.

Definition meters_nonneg (m : meters) : Prop :=
  (0 <= AverageMeter.count (losses m))%Q
  /\ (0 <= AverageMeter.count (top1 m))%Q
  /\ (0 <= AverageMeter.count (top5 m))%Q.

(** A meter after [update(v / c, c)]. *)
Definition updated (meter : AverageMeter.t) (v c : Q) : AverageMeter.t :=
  {| AverageMeter.val := (v / c)%Q;
     AverageMeter.avg := ((AverageMeter.sum meter + v / c * c) / (AverageMeter.count meter + c))%Q;
     AverageMeter.sum := (AverageMeter.sum meter + v / c * c)%Q;
     AverageMeter.count := (AverageMeter.count meter + c)%Q |}.

(** The local sums of a well-formed batch, in the specification's terms. *)
Definition batch_stats (b : batch) : stats :=
  let n := inject_Z (Z.of_nat (shape0 b)) in
  {| s_count := n;
     s_loss := (loss b * n)%Q;
     s_prec1 := (inject_Z (Z.of_nat (count_in_topk 1 (output b) (target b))) * 100)%Q;
     s_prec5 := (inject_Z (Z.of_nat (count_in_topk 5 (output b) (target b))) * 100)%Q |}.

(** The calls one loop iteration of [validate] is expected to issue. *)
Definition step_calls (initialized : bool) (last_group_size : nat) (b : batch) : list call :=
  if (1 <? shape0 b) || (last_group_size =? 0)
  then (if initialized then repeat (AllReduce World) 4 else [])
  else NewGroup (seq 0 last_group_size)
       :: repeat (AllReduce (Sub (seq 0 last_group_size))) 4.

(** The meter that receives a slot (the count has none of its own). *)
Definition meter_of (sl : slot) (m : meters) : AverageMeter.t :=
  match sl with
  | Prec1 => top1 m
  | Prec5 => top5 m
  | Loss | Count => losses m
  end.

(** One batch accounted for without any reduction. *)
Definition local_step (m : meters) (b : batch) : meters :=
  let s := batch_stats b in
  {| losses := updated (losses m) (s_loss s) (s_count s);
     top1 := updated (top1 m) (s_prec1 s) (s_count s);
     top5 := updated (top5 m) (s_prec5 s) (s_count s) |}.

(** The ratio computed from a worker's own batches alone. *)
Definition local_ratio (sl : slot) (loader : list batch) : Q :=
  (sum_Q (map (fun b => select sl (batch_stats b)) loader)
   / sum_Q (map (fun b => s_count (batch_stats b)) loader))%Q.

(** ** main: world size (lines 72-77) *)

(** [environ_world_size] is [int(os.environ['WORLD_SIZE'])]; [None] stands
    for a missing or unparsable variable, which the bare [except] catches.
    The result is [(distributed, world_size)]. *)
Definition main_world_size (environ_world_size : option Z) : bool * Z :=
  match environ_world_size with
  | Some world_size => ((1 <? world_size)%Z, world_size)
  | None => (false, 1%Z)
  end.

(** ** main: resume, epochs and checkpoints (lines 107-170, 321-324) *)

Inductive log_record : Type :=
  | Info (msg : string)
  | Warning (msg : string).

Definition Qgt_bool (a b : Q) : bool := negb (Qle_bool a b).

(** Python's [max(a, b)]: the first argument unless the second is larger. *)
Definition py_max2 (a b : Q) : Q := if Qgt_bool b a then b else a.

Section Main.

(** Model and optimizer states are opaque; so are the weight-init policy
    and, at this level, what an epoch of training and an evaluation pass
    compute. *)
Variable blob : Type.
Variable init_weights : blob -> blob.
Variable train_epoch : nat -> blob * blob -> blob * blob.
Variable validate_epoch : nat -> blob -> Q.

Record checkpoint : Type := {
  epoch : nat;
  arch : string;
  state_dict : blob;
  best_prec1 : Q;
  optimizer : blob
}.

(** The parsed command line; [start_epoch] is not an argument of the
    parser, so the attribute exists only once it has been assigned. *)
Record namespace : Type := {
  resume : string;
  evaluate : bool;
  start_epoch : option nat
}.

Record program : Type := {
  args : namespace;
  g_best_prec1 : Q;                     (* the global best_prec1 *)
  model : blob;
  optim : blob;
  files : gmap string checkpoint;
  log : list log_record                 (* oldest first *)
}.

(** Lines 321-324. *)
Definition save_checkpoint (state : checkpoint) (is_best : bool) (filename : string)
    (fs : gmap string checkpoint) : result (gmap string checkpoint) :=
  let fs := <[filename := state]> fs in
  if is_best then
    if String.eqb filename "model_best.pth.tar" then Err SameFileError
    else
      match fs !! filename with
      | Some content => Ok (<["model_best.pth.tar" := content]> fs)
      | None => Err FileNotFoundError
      end
  else Ok fs.

(** Lines 108-122. *)
Definition resume_or_init (p : program) : program :=
  let a := args p in
  if negb (String.eqb (resume a) "") then
    match files p !! resume a with
    | Some ckpt =>
        {| args := {| resume := resume a; evaluate := evaluate a;
                      start_epoch := Some (epoch ckpt) |};
           g_best_prec1 := best_prec1 ckpt;
           model := state_dict ckpt;
           optim := optimizer ckpt;
           files := files p;
           log := log p ++ [Info ("=> loading checkpoint '" ++ resume a ++ "'");
                            Info ("=> loaded checkpoint '" ++ resume a ++ "'")] |}
    | None =>
        {| args := a; g_best_prec1 := g_best_prec1 p; model := model p;
           optim := optim p; files := files p;
           log := log p ++ [Warning ("=> no checkpoint found at '" ++ resume a ++ "'")] |}
    end
  else
    {| args := {| resume := resume a; evaluate := evaluate a; start_epoch := Some 0 |};
       g_best_prec1 := g_best_prec1 p; model := init_weights (model p);
       optim := optim p; files := files p; log := log p |}.

(** Lines 152-170: one iteration of the epoch loop. *)
Definition epoch_body (network_arch : string) (e : nat) (p : program) : result program :=
  let trained := train_epoch e (model p, optim p) in
  let prec1 := validate_epoch e (fst trained) in
  let is_best := Qgt_bool prec1 (g_best_prec1 p) in
  let best := py_max2 prec1 (g_best_prec1 p) in
  let! fs := save_checkpoint
               {| epoch := e + 1; arch := network_arch; state_dict := fst trained;
                  best_prec1 := best; optimizer := snd trained |}
               is_best "checkpoint.pth.tar" (files p) in
  Ok {| args := args p; g_best_prec1 := best; model := fst trained;
        optim := snd trained; files := fs; log := log p |}.

Fixpoint epoch_loop (network_arch : string) (es : list nat) (p : program) : result program :=
  match es with
  | [] => Ok p
  | e :: es' => let! p' := epoch_body network_arch e p in epoch_loop network_arch es' p'
  end.

(** [parser.parse_args()]: the namespace holds the declared arguments
    only. *)
Definition parse_args (argv_resume : string) (argv_evaluate : bool) : namespace :=
  {| resume := argv_resume; evaluate := argv_evaluate; start_epoch := None |}.

(** Lines 66-170, for the model and optimizer as constructed (lines 94,
    105) and the files present; [best_prec1] starts at 0 (line 47) and
    [epochs] is conf["optimizer"]["schedule"]["epochs"].  In evaluate
    mode the program returns after one evaluation pass. *)
Definition main (network_arch : string) (epochs : nat)
    (argv_resume : string) (argv_evaluate : bool)
    (created_model created_optimizer : blob) (fs : gmap string checkpoint)
    : result program :=
  let p := {| args := parse_args argv_resume argv_evaluate; g_best_prec1 := 0%Q;
              model := created_model; optim := created_optimizer;
              files := fs; log := [] |} in
  let p := resume_or_init p in
  if evaluate (args p) then Ok p
  else
    match start_epoch (args p) with
    | None => Err AttributeError
    | Some first => epoch_loop network_arch (seq first (epochs - first)) p
    end.

End Main.

Arguments epoch {blob}.
Arguments arch {blob}.
Arguments state_dict {blob}.
Arguments best_prec1 {blob}.
Arguments optimizer {blob}.
Arguments args {blob}.
Arguments g_best_prec1 {blob}.
Arguments model {blob}.
Arguments optim {blob}.
Arguments files {blob}.
Arguments log {blob}.
Arguments save_checkpoint {blob}.
Arguments resume_or_init {blob}.
Arguments epoch_body {blob}.
Arguments epoch_loop {blob}.
Arguments main {blob}.

(** ** init_weights (lines 362-387) *)

(** The module classes the function tells apart with [isinstance]. *)
Inductive layer : Type := Conv2d | BatchNorm2d | ABN | Linear | OtherModule.

(** What a parameter tensor holds, as far as initialisation goes: what the
    constructor left, a constant, or the draw of an initialiser of
    [torch.nn.init] called with one argument. *)
Inductive filling : Type :=
  | AsConstructed
  | Constant (c : Q)
  | Drawn (init_fn : string) (argument : Q).

(** A module of [model.named_modules()]; a parameter that is [None] (a
    layer built without bias, a normalisation without affine terms) is
    [None] here as well. *)
Record module : Type := {
  m_name : string;
  m_class : layer;
  m_weight : option filling;
  m_bias : option filling
}.

(** The entries of conf["network"] that the function reads. *)
Record network_conf : Type := {
  weight_init : string;
  weight_gain_multiplier : Q;
  activation : string;
  leaky_relu_slope : Q
}.

Section InitWeights.

(** [torch.nn.init], an external library: which names it defines, and the
    values of [calculate_gain("relu")] and [calculate_gain("leaky_relu", s)]. *)
Variable nn_init_defines : string -> bool.
Variable gain_relu : Q.
Variable gain_leaky_relu : Q -> Q.

(** [nn.init.constant_(tensor, c)] and the other initialisers fill a
    tensor; on [None] they raise. *)
Definition fill (t : option filling) (f : filling) : result (option filling) :=
  match t with
  | Some _ => Ok (Some f)
  | None => Err AttributeError
  end.

(** Lines 365-381, for a [Conv2d]. *)
Definition init_conv (conf : network_conf) (m : module) : result module :=
  if nn_init_defines (String.append (weight_init conf) "_") then
    let init_fn := String.append (weight_init conf) "_" in
    let! weight :=
      if String.prefix "xavier" (weight_init conf)
         || String.eqb (weight_init conf) "orthogonal"
      then
        let gain := weight_gain_multiplier conf in
        let gain :=
          if String.eqb (activation conf) "relu" || String.eqb (activation conf) "elu"
          then (gain * gain_relu)%Q
          else if String.eqb (activation conf) "leaky_relu"
               then (gain * gain_leaky_relu (leaky_relu_slope conf))%Q
               else gain in
        fill (m_weight m) (Drawn init_fn gain)
      else if String.prefix "kaiming" (weight_init conf)
      then
        if String.eqb (activation conf) "relu" || String.eqb (activation conf) "elu"
        then fill (m_weight m) (Drawn init_fn 0)
        else fill (m_weight m) (Drawn init_fn (leaky_relu_slope conf))
      else Ok (m_weight m) in
    let! bias :=
      match m_bias m with
      | Some _ => fill (m_bias m) (Constant 0)
      | None => Ok None
      end in
    Ok {| m_name := m_name m; m_class := m_class m; m_weight := weight; m_bias := bias |}
  else Err AttributeError.

(** The body of the loop over the modules. *)
Definition init_module (conf : network_conf) (m : module) : result module :=
  match m_class m with
  | Conv2d => init_conv conf m
  | BatchNorm2d | ABN =>
      let! weight := fill (m_weight m) (Constant 1) in
      let! bias := fill (m_bias m) (Constant 0) in
      Ok {| m_name := m_name m; m_class := m_class m; m_weight := weight; m_bias := bias |}
  | Linear =>
      let! weight := fill (m_weight m) (Drawn "xavier_uniform_" (1 # 10)) in
      let! bias := fill (m_bias m) (Constant 0) in
      Ok {| m_name := m_name m; m_class := m_class m; m_weight := weight; m_bias := bias |}
  | OtherModule => Ok m
  end.

Fixpoint init_weights (conf : network_conf) (model : list module) : result (list module) :=
  match model with
  | [] => Ok []
  | m :: rest =>
      let! m' := init_module conf m in
      let! rest' := init_weights conf rest in
      Ok (m' :: rest')
  end.

End InitWeights.

(** A module as [init_weights] must leave it. *)
Definition initialised (m m' : module) : Prop :=
  m_name m' = m_name m
  /\ m_class m' = m_class m
  /\ match m_class m with
     | Conv2d =>
         (m_bias m = None -> m_bias m' = None)
         /\ (m_bias m <> None -> m_bias m' = Some (Constant 0))
     | BatchNorm2d | ABN =>
         m_weight m' = Some (Constant 1) /\ m_bias m' = Some (Constant 0)
     | Linear =>
         m_weight m' = Some (Drawn "xavier_uniform_" (1 # 10))
         /\ m_bias m' = Some (Constant 0)
     | OtherModule => m' = m
     end.

(** A module on which the loop body raises. *)
Definition rejected (nn_init_defines : string -> bool) (conf : network_conf)
    (m : module) : bool :=
  match m_class m with
  | Conv2d =>
      negb (nn_init_defines (String.append (weight_init conf) "_"))
      || ((String.prefix "xavier" (weight_init conf)
           || String.eqb (weight_init conf) "orthogonal"
           || String.prefix "kaiming" (weight_init conf))
          && match m_weight m with None => true | Some _ => false end)
  | BatchNorm2d | ABN | Linear =>
      match m_weight m, m_bias m with
      | Some _, Some _ => false
      | _, _ => true
      end
  | OtherModule => false
  end.

(** ** init_logger (lines 53-64) *)





(** ** main: rank and metrics sink (lines 72-85) *)

(** [launched_rank] is what [dist.get_rank()] returns once the process
    group exists.  The result is [(distributed, rank, tb)], the last telling
    whether [tb] is a [SummaryWriter] (it is [None] otherwise). *)
Definition main_setup (environ_world_size : option Z) (launched_rank : nat)
    : bool * nat * bool :=
  let distributed := fst (main_world_size environ_world_size) in
  let rank := if distributed then launched_rank else 0 in
  (distributed, rank, rank =? 0).

(** ** train and validate with their logging (lines 173-245, 248-318) *)

Inductive scalar : Type :=
  | MeterValue (q : Q)
  | LearningRate.              (* scheduler.get_lr()[0] *)

Inductive event : Type :=
  | SchedulerStep (position : nat)
  | Issued (c : call)
  | LogLine (i : nat)
  | AddScalar (name : string) (value : scalar) (step : nat)
  | AddHistogram (name : string) (step : nat)
  | Summary.                   (* the ' * Prec@1 ...' line of validate *)

(** Python's [i % n] on ints: the sign follows the divisor, as for [Z]; a
    zero divisor raises. *)
Definition py_mod (i n : Z) : result Z :=
  if (n =? 0)%Z then Err ZeroDivisionError else Ok (i mod n)%Z.

(** [if i % args.print_freq == 0: logger.info(...)]. *)
Definition log_stride (print_freq : Z) (i : nat) : result (list event) :=
  let! r := py_mod (Z.of_nat i) print_freq in
  Ok (if (r =? 0)%Z then [LogLine i] else []).

(** [name.find("fc") != -1 or name.find("bn_out") != -1]. *)
Definition histogram_wanted (name : string) : bool :=
  match String.index 0 "fc" name, String.index 0 "bn_out" name with
  | None, None => false
  | _, _ => true
  end.

(** Lines 237-245; [tb] tells whether the sink exists, and a call on the
    [None] it is otherwise raises. *)
Definition train_scalars (d : dist) (tb : bool) (log_hist : bool)
    (param_names : list string) (step i : nat) (m : meters) : result (list event) :=
  if negb (is_initialized d) || (get_rank d =? 0) then
    if tb then
      Ok ([AddScalar "train/loss" (MeterValue (AverageMeter.val (losses m))) step;
           AddScalar "train/lr" LearningRate step;
           AddScalar "train/top1" (MeterValue (AverageMeter.val (top1 m))) step;
           AddScalar "train/top5" (MeterValue (AverageMeter.val (top5 m))) step]
          ++ (if log_hist && (i mod 10 =? 0)
              then map (fun name => AddHistogram name step)
                       (List.filter histogram_wanted param_names)
              else []))
    else Err AttributeError
  else Ok [].

(** The loop of [train]; [len] is [len(train_loader)] and [mode] is
    conf["optimizer"]["schedule"]["mode"]. *)
Fixpoint train_batches (d : dist) (tb : bool) (mode : string) (print_freq : Z)
    (log_hist : bool) (param_names : list string) (epoch len : nat)
    (i : nat) (batches : list batch) (m : meters) : result (meters * list event) :=
  match batches with
  | [] => Ok (m, [])
  | b :: rest =>
      let step := i + epoch * len in
      let stepped := if String.eqb mode "step" then [SchedulerStep step] else [] in
      let! r := train_step d i b m in
      let! logged := log_stride print_freq i in
      let! scalars := train_scalars d tb log_hist param_names step i (fst r) in
      let! r' := train_batches d tb mode print_freq log_hist param_names epoch len
                   (S i) rest (fst r) in
      Ok (fst r', stepped ++ map Issued (snd r) ++ logged ++ scalars ++ snd r')
  end.

Definition train_logged (d : dist) (tb : bool) (mode : string) (print_freq : Z)
    (log_hist : bool) (param_names : list string) (epoch : nat)
    (train_loader : list batch) : result (meters * list event) :=
  let stepped := if String.eqb mode "epoch" then [SchedulerStep epoch] else [] in
  let! r := train_batches d tb mode print_freq log_hist param_names epoch
              (length train_loader) 0 train_loader meters_init in
  Ok (fst r, stepped ++ snd r).

(** The loop of [validate] with its log lines. *)
Fixpoint validate_batches (d : dist) (last_group_size : nat) (print_freq : Z)
    (i : nat) (batches : list batch) (m : meters) : result (meters * list event) :=
  match batches with
  | [] => Ok (m, [])
  | input :: rest =>
      let! r := validate_step d last_group_size i input m in
      let! logged := log_stride print_freq i in
      let! r' := validate_batches d last_group_size print_freq (S i) rest (fst r) in
      Ok (fst r', map Issued (snd r) ++ logged ++ snd r')
  end.

(** [validate(val_loader, model, criterion, it)]; [it] is [None] in
    evaluate mode.  The result is [top1.avg] and what the pass did. *)
Definition validate_logged (d : dist) (tb : bool) (print_freq : Z) (it : option nat)
    (dataset_len : nat) (val_loader : list batch) : result (Q * list event) :=
  let rank := if is_initialized d then get_rank d else 0 in
  let world_size := if is_initialized d then get_world_size d else 1 in
  if world_size =? 0 then Err ZeroDivisionError
  else
    let last_group_size := dataset_len mod world_size in
    let! r := validate_batches d last_group_size print_freq 0 val_loader meters_init in
    match last val_loader with
    | None => Err UnboundLocalError
    | Some input =>
        let post :=
          if (shape0 input =? 1) && ((last_group_size <? rank) && (0 <? last_group_size))
          then [Issued (NewGroup (seq 0 last_group_size))]
          else [] in
        let m := fst r in
        let! scalars :=
          match it with
          | Some step =>
              if negb (is_initialized d) || (get_rank d =? 0) then
                if tb then
                  Ok [AddScalar "val/loss" (MeterValue (AverageMeter.avg (losses m))) step;
                      AddScalar "val/top1" (MeterValue (AverageMeter.avg (top1 m))) step;
                      AddScalar "val/top5" (MeterValue (AverageMeter.avg (top5 m))) step]
                else Err AttributeError
              else Ok []
          | None => Ok []
          end in
        Ok (AverageMeter.avg (top1 m), snd r ++ post ++ [Summary] ++ scalars)
    end.

(** Counting and selecting events. *)
Definition issued (events : list event) : list call :=
  concat (map (fun e => match e with Issued c => [c] | _ => [] end) events).

Definition scalar_steps (events : list event) : list nat :=
  concat (map (fun e => match e with AddScalar _ _ step => [step] | _ => [] end) events).

Definition scheduler_steps (events : list event) : list nat :=
  concat (map (fun e => match e with SchedulerStep p => [p] | _ => [] end) events).

Definition log_lines (events : list event) : list nat :=
  concat (map (fun e => match e with LogLine i => [i] | _ => [] end) events).

(** ** main: the loaders' batch size (lines 139, 144) *)

(** [conf["optimizer"]["batch_size"] // world_size], Python's floor
    division. *)
Definition per_worker_batch_size (batch_size world_size : Z) : result Z :=
  if (world_size =? 0)%Z then Err ZeroDivisionError else Ok (batch_size / world_size)%Z.

(** The same, with the world size [main] derives from the environment. *)
Definition main_batch_size (environ_world_size : option Z) (batch_size : Z) : result Z :=
  per_worker_batch_size batch_size (snd (main_world_size environ_world_size)).

(** ** Vocabulary of the further statements *)

(** The number of classes that score strictly higher than class [label],
    and the number of other classes that score at least as high. *)
Definition higher_scored (row : list Q) (label : nat) : nat :=
  length (List.filter (fun j => negb (Qle_bool (nth j row 0%Q) (nth label row 0%Q)))
            (seq 0 (length row))).

Definition rivals (row : list Q) (label : nat) : nat :=
  length (List.filter (fun j => negb (j =? label)
                                && Qle_bool (nth label row 0%Q) (nth j row 0%Q))
            (seq 0 (length row))).

(** Counting the calls of a trace and the batches of a loader. *)
Definition all_reduces (calls : list call) : nat :=
  length (List.filter (fun c => match c with AllReduce _ => true | _ => false end) calls).

Definition single_sample_batches (loader : list batch) : nat :=
  length (List.filter (fun b => shape0 b <=? 1) loader).

Definition samples (loader : list batch) : nat := list_sum (map shape0 loader).

(** The best copy on disk, when there is one, records the best score the
    program holds. *)
Definition best_copy_consistent {blob : Type} (p : program blob) : Prop :=
  forall c, files p !! "model_best.pth.tar" = Some c ->
            (best_prec1 c == g_best_prec1 p)%Q.

(** What the last written checkpoint must hold for a program state. *)
Definition checkpoint_of {blob : Type} (network_arch : string) (next_epoch : nat)
    (p : program blob) : checkpoint blob :=
  {| epoch := next_epoch; arch := network_arch; state_dict := model p;
     best_prec1 := g_best_prec1 p; optimizer := optim p |}.

(** * Properties *)

(** ** The error monad *)

Lemma bind_Ok {A B : Type} (m : result A) (k : A -> result B) (b : B) :
  bind m k = Ok b -> exists a, m = Ok a /\ k a = Ok b.
Proof. destruct m as [a|e]; simpl; intros H; [eauto | discriminate]. Qed.

Lemma py_div_Ok (a b : Q) : ~ (b == 0)%Q -> py_div a b = Ok (a / b)%Q.
Proof.
  intros Hb. unfold py_div.
  destruct (Qeq_bool b 0) eqn:E; [|reflexivity].
  apply Qeq_bool_iff in E. contradiction.
Qed.

Lemma py_div_zero (a b : Q) : (b == 0)%Q -> py_div a b = Err ZeroDivisionError.
Proof.
  intros Hb. unfold py_div. apply Qeq_bool_iff in Hb. now rewrite Hb.
Qed.

(** ** AverageMeter *)

Section Meter.

Import AverageMeter.

Lemma update_Ok (m : t) (v n : Q) :
  ~ (count m + n == 0)%Q ->
  update m v n =
    Ok {| val := v; avg := ((sum m + v * n) / (count m + n))%Q;
          sum := (sum m + v * n)%Q; count := (count m + n)%Q |}.
Proof. intros H. unfold update. now rewrite py_div_Ok. Qed.

Lemma update_inv (m m' : t) (v n : Q) :
  update m v n = Ok m' ->
  val m' = v /\ sum m' = (sum m + v * n)%Q /\ count m' = (count m + n)%Q
  /\ avg m' = (sum m' / count m')%Q /\ ~ (count m' == 0)%Q.
Proof.
  unfold update, py_div.
  destruct (Qeq_bool (count m + n) 0) eqn:E; simpl; [discriminate|].
  intros [= <-]. simpl. repeat split; try reflexivity.
  now apply Qeq_bool_neq.
Qed.

Lemma updates_snoc (us : list (Q * Q)) (u : Q * Q) (m : t) :
  updates m (us ++ [u]) = let! m' := updates m us in update m' (fst u) (snd u).
Proof.
  revert m. induction us as [|[v n] us IH]; intros m; simpl.
  - destruct u as [v n]. simpl. now destruct (update m v n).
  - destruct (update m v n) as [m1|e]; simpl; [apply IH | reflexivity].
Qed.

Lemma updates_accumulate (us : list (Q * Q)) (m m' : t) :
  updates m us = Ok m' ->
  sum m' = fold_left add_weighted us (sum m)
  /\ count m' = fold_left add_weight us (count m).
Proof.
  revert m. induction us as [|[v n] us IH]; intros m; simpl.
  - intros [= <-]. now split.
  - intros H. apply bind_Ok in H as (m1 & H1 & H2).
    apply update_inv in H1 as (_ & Hs & Hc & _).
    destruct (IH _ H2) as [IHs IHc].
    rewrite IHs, IHc, Hs, Hc. now split.
Qed.

Lemma updates_total (us : list (Q * Q)) (m : t) :
  (forall k, 0 < k <= length us ->
             ~ (fold_left add_weight (firstn k us) (count m) == 0)%Q) ->
  exists m', updates m us = Ok m'.
Proof.
  revert m. induction us as [|[v n] us IH]; intros m Hpre; simpl.
  - eauto.
  - assert (Hnz : ~ (count m + n == 0)%Q).
    { apply (Hpre 1). simpl. lia. }
    rewrite (update_Ok _ _ _ Hnz). simpl. apply IH. simpl.
    intros k Hk. apply (Hpre (S k)). simpl. lia.
Qed.

Lemma updates_reset (stale : t) (us : list (Q * Q)) :
  updates (reset stale) us = updates init us.
Proof. reflexivity. Qed.

(** A prefix whose weights add up to zero makes the last of its updates
    raise: the quotient the meter would store does not exist. *)
Lemma updates_zero_weight (us : list (Q * Q)) (u : Q * Q) (m : t) :
  updates init us = Ok m ->
  (total_weight (us ++ [u]) == 0)%Q ->
  updates init (us ++ [u]) = Err ZeroDivisionError.
Proof.
  intros Hus Hz. rewrite updates_snoc, Hus. simpl.
  apply updates_accumulate in Hus as [_ Hc].
  unfold update. rewrite py_div_zero; [reflexivity|].
  unfold total_weight in Hz. rewrite fold_left_app in Hz. simpl in Hz.
  rewrite Hc. exact Hz.
Qed.

(** C6.  Starting from a fresh meter, after every update [(v, n)] that
    follows the updates [us], the meter holds [v] as its current value,
    the accumulated sum of value*weight, the accumulated weight, and their
    quotient as the average; the updates go through whenever no prefix of
    the sequence has accumulated weight zero (where Python's division
    raises).  A meter that is reset behaves, on every sequence of updates,
    as a freshly constructed one. *)
Theorem meter_average_and_reset (us : list (Q * Q)) (stale : t) :
  updates (reset stale) us = updates init us
  /\ forall v n,
      (forall k, 0 < k <= length (us ++ [(v, n)]) ->
                 ~ (total_weight (firstn k (us ++ [(v, n)])) == 0)%Q) ->
      exists m,
        updates init (us ++ [(v, n)]) = Ok m
        /\ updates (reset stale) (us ++ [(v, n)]) = Ok m
        /\ val m = v
        /\ sum m = weighted_sum (us ++ [(v, n)])
        /\ count m = total_weight (us ++ [(v, n)])
        /\ avg m = (weighted_sum (us ++ [(v, n)]) / total_weight (us ++ [(v, n)]))%Q.
Proof.
  split; [apply updates_reset|].
  intros v n Hpre.
  destruct (updates_total (us ++ [(v, n)]) init) as [m Hm].
  { intros k Hk. apply (Hpre k Hk). }
  exists m. split; [exact Hm|]. split; [exact Hm|].
  pose proof (updates_accumulate _ _ _ Hm) as [Hs Hc].
  rewrite updates_snoc in Hm. apply bind_Ok in Hm as (m0 & _ & Hu).
  apply update_inv in Hu as (Hv & _ & _ & Ha & _).
  unfold weighted_sum, total_weight.
  repeat split; try assumption.
  rewrite Ha, Hs, Hc. reflexivity.
Qed.

Lemma meter_average_and_reset_witness :
  exists m,
    updates init ([(1 # 2, 2)] ++ [(3, 1)])%Q = Ok m
    /\ avg m = (weighted_sum ([(1 # 2, 2)] ++ [(3, 1)]) /
                total_weight ([(1 # 2, 2)] ++ [(3, 1)]))%Q.
Proof.
  destruct (meter_average_and_reset [(1 # 2, 2)]%Q init) as [_ H].
  destruct (H 3%Q 1%Q) as (m & Hm & _ & _ & _ & _ & Ha).
  - intros k Hk. simpl in Hk.
    assert (Hcase : k = 1 \/ k = 2) by lia.
    destruct Hcase as [-> | ->]; vm_compute; discriminate.
  - exists m. split; assumption.
Defined.

End Meter.

(** ** Checkpoints and the epoch loop *)

Lemma Qgt_bool_iff (a b : Q) : Qgt_bool a b = true <-> (b < a)%Q.
Proof.
  unfold Qgt_bool. rewrite negb_true_iff. split.
  - intros H. apply Qnot_le_lt. intros Hle.
    apply Qle_bool_iff in Hle. congruence.
  - intros H. destruct (Qle_bool a b) eqn:E; [|reflexivity].
    apply Qle_bool_iff in E. exfalso. exact (Qlt_not_le _ _ H E).
Qed.

Lemma save_checkpoint_default {blob : Type} (state : checkpoint blob) (is_best : bool)
    (fs : gmap string (checkpoint blob)) :
  exists fs',
    save_checkpoint state is_best "checkpoint.pth.tar" fs = Ok fs'
    /\ fs' !! "checkpoint.pth.tar" = Some state
    /\ fs' !! "model_best.pth.tar" =
         (if is_best then Some state else fs !! "model_best.pth.tar").
Proof.
  unfold save_checkpoint. destruct is_best; simpl.
  - rewrite lookup_insert_eq. eexists. split; [reflexivity|]. split.
    + rewrite lookup_insert_ne by discriminate. apply lookup_insert_eq.
    + apply lookup_insert_eq.
  - eexists. split; [reflexivity|]. split.
    + apply lookup_insert_eq.
    + apply lookup_insert_ne. discriminate.
Qed.

(** C5.  [save_checkpoint] always stores the state under the checkpoint
    name and copies it to the best slot exactly when [is_best] holds; at an
    epoch boundary [is_best] holds exactly when the validation top-1 score
    is strictly above the best score so far, so an equal score leaves the
    best copy as it was. *)
Theorem checkpoint_best_copy {blob : Type}
    (train_epoch : nat -> blob * blob -> blob * blob)
    (validate_epoch : nat -> blob -> Q)
    (network_arch : string) (e : nat) (p : program blob)
    (state : checkpoint blob) (is_best : bool) :
  (exists fs',
     save_checkpoint state is_best "checkpoint.pth.tar" (files p) = Ok fs'
     /\ fs' !! "checkpoint.pth.tar" = Some state
     /\ fs' !! "model_best.pth.tar" =
          (if is_best then Some state else files p !! "model_best.pth.tar"))
  /\ let trained := train_epoch e (model p, optim p) in
     let prec1 := validate_epoch e (fst trained) in
     exists p' saved,
       epoch_body train_epoch validate_epoch network_arch e p = Ok p'
       /\ files p' !! "checkpoint.pth.tar" = Some saved
       /\ state_dict saved = fst trained
       /\ epoch saved = e + 1
       /\ best_prec1 saved = g_best_prec1 p'
       /\ ((g_best_prec1 p < prec1)%Q ->
           files p' !! "model_best.pth.tar" = Some saved /\ g_best_prec1 p' = prec1)
       /\ (~ (g_best_prec1 p < prec1)%Q ->
           files p' !! "model_best.pth.tar" = files p !! "model_best.pth.tar"
           /\ (g_best_prec1 p' == g_best_prec1 p)%Q)
       /\ ((prec1 == g_best_prec1 p)%Q ->
           files p' !! "model_best.pth.tar" = files p !! "model_best.pth.tar").
Proof.
  split; [apply save_checkpoint_default|].
  intros trained prec1. unfold epoch_body. fold trained. fold prec1.
  set (saved := {| epoch := e + 1; arch := network_arch; state_dict := fst trained;
                   best_prec1 := py_max2 prec1 (g_best_prec1 p);
                   optimizer := snd trained |}).
  destruct (save_checkpoint_default saved (Qgt_bool prec1 (g_best_prec1 p)) (files p))
    as (fs' & Hsave & Hckpt & Hbest).
  rewrite Hsave. simpl. eexists; exists saved.
  split; [reflexivity|]. simpl.
  assert (Hnot : ~ (g_best_prec1 p < prec1)%Q ->
                 fs' !! "model_best.pth.tar" = files p !! "model_best.pth.tar"
                 /\ (py_max2 prec1 (g_best_prec1 p) == g_best_prec1 p)%Q).
  { intros Hn. destruct (Qgt_bool prec1 (g_best_prec1 p)) eqn:E.
    - apply Qgt_bool_iff in E. contradiction.
    - split; [exact Hbest|]. unfold py_max2.
      destruct (Qgt_bool (g_best_prec1 p) prec1) eqn:E2; [reflexivity|].
      (* neither is larger: Python's max returns its first argument *)
      apply Qle_antisym.
      + apply Qnot_lt_le. exact Hn.
      + apply Qnot_lt_le. intros Hlt. apply Qgt_bool_iff in Hlt. congruence. }
  split; [exact Hckpt|]. do 3 (split; [reflexivity|]).
  split; [|split].
  - intros Hlt. split.
    + apply Qgt_bool_iff in Hlt. rewrite Hlt in Hbest. exact Hbest.
    + unfold py_max2.
      destruct (Qgt_bool (g_best_prec1 p) prec1) eqn:E2; [|reflexivity].
      apply Qgt_bool_iff in E2. exfalso.
      exact (Qlt_irrefl _ (Qlt_trans _ _ _ Hlt E2)).
  - exact Hnot.
  - intros Heq. apply Hnot. rewrite Heq. apply Qlt_irrefl.
Qed.

(** ** Resuming

    The run with [--resume] naming a file that does not exist, against the
    run without [--resume]. *)

(** C4.  With a resume path and no file there, the program logs the warning
    and leaves the [else] branch of line 120 untouched: the weights are not
    initialised and [args.start_epoch] is never assigned, so the epoch loop
    of line 151 raises; without a resume path the weights are initialised
    and the first epoch is 0. *)
Theorem main_missing_checkpoint {blob : Type} (init_weights : blob -> blob)
    (train_epoch : nat -> blob * blob -> blob * blob)
    (validate_epoch : nat -> blob -> Q)
    (network_arch : string) (epochs : nat) (created_model created_optimizer : blob) :
  main init_weights train_epoch validate_epoch network_arch epochs
       "missing.pth.tar" false created_model created_optimizer ∅
    = Err AttributeError
  /\ (exists p,
        main init_weights train_epoch validate_epoch network_arch epochs
             "missing.pth.tar" true created_model created_optimizer ∅ = Ok p
        /\ log p = [Warning "=> no checkpoint found at 'missing.pth.tar'"]
        /\ model p = created_model
        /\ start_epoch (args p) = None)
  /\ (exists p,
        main init_weights train_epoch validate_epoch network_arch epochs
             "" true created_model created_optimizer ∅ = Ok p
        /\ log p = []
        /\ model p = init_weights created_model
        /\ start_epoch (args p) = Some 0).
Proof.
  split; [reflexivity|].
  split; eexists; (split; [reflexivity|]); simpl; auto.
Qed.

(** ** accuracy_sum *)

Section Ranking.

Variable row : list Q.

Lemma insert_desc_perm (i : nat) (sorted : list nat) :
  Permutation (insert_desc row i sorted) (i :: sorted).
Proof.
  induction sorted as [|j rest IH]; simpl; [reflexivity|].
  destruct (Qle_bool (nth i row 0%Q) (nth j row 0%Q)); [|reflexivity].
  rewrite IH. apply perm_swap.
Qed.

Lemma insert_all_perm (ixs acc : list nat) :
  Permutation (fold_left (fun sorted i => insert_desc row i sorted) ixs acc) (ixs ++ acc).
Proof.
  revert acc. induction ixs as [|i ixs IH]; intros acc; simpl; [reflexivity|].
  rewrite IH. rewrite insert_desc_perm. symmetry. apply Permutation_middle.
Qed.

Lemma argsort_desc_perm : Permutation (argsort_desc row) (seq 0 (length row)).
Proof.
  unfold argsort_desc. rewrite insert_all_perm. now rewrite app_nil_r.
Qed.

Lemma argsort_desc_length : length (argsort_desc row) = length row.
Proof.
  rewrite (Permutation_length argsort_desc_perm). apply length_seq.
Qed.

Lemma argsort_desc_NoDup : List.NoDup (argsort_desc row).
Proof.
  eapply Permutation_NoDup; [symmetry; apply argsort_desc_perm|].
  apply List.seq_NoDup.
Qed.

Lemma topk_row_length (k : nat) : k <= length row -> length (topk_row k row) = k.
Proof.
  intros H. unfold topk_row. rewrite length_firstn, argsort_desc_length. lia.
Qed.

Lemma topk_row_S (k : nat) :
  k < length row ->
  topk_row (S k) row = topk_row k row ++ [nth k (argsort_desc row) 0].
Proof.
  intros H. unfold topk_row. rewrite <- argsort_desc_length in H.
  revert k H. induction (argsort_desc row) as [|x l IH]; intros k H; simpl in *.
  - lia.
  - destruct k as [|k]; simpl; [reflexivity|]. f_equal. apply IH. lia.
Qed.

Lemma topk_row_nth (k maxk : nat) :
  k < maxk -> nth k (topk_row maxk row) 0 = nth k (argsort_desc row) 0.
Proof.
  unfold topk_row. revert k maxk.
  induction (argsort_desc row) as [|x l IH]; intros k maxk H.
  - rewrite firstn_nil. reflexivity.
  - destruct maxk as [|maxk]; [lia|]. destruct k as [|k]; simpl; [reflexivity|].
    apply IH. lia.
Qed.

(** A class index sits at one position of the ranking only. *)
Lemma rank_exclusive (k label : nat) :
  k < length row ->
  existsb (Nat.eqb label) (topk_row k row) = true ->
  Nat.eqb (nth k (argsort_desc row) 0) label = false.
Proof.
  intros Hk Hin. apply Nat.eqb_neq. intros Heq.
  apply existsb_exists in Hin as (x & Hx & Hlx). apply Nat.eqb_eq in Hlx. subst x.
  pose proof argsort_desc_NoDup as Hnd.
  rewrite <- argsort_desc_length in Hk. unfold topk_row in Hx.
  revert k Hk Hx Heq. induction Hnd as [|x l Hnotin Hnd IH]; intros k Hk Hx Heq.
  - simpl in Hk. lia.
  - destruct k as [|k]; simpl in *; [contradiction|].
    destruct Hx as [Hx | Hx].
    + subst x. apply Hnotin. rewrite <- Heq. apply nth_In. lia.
    + apply (IH k); [lia | exact Hx | exact Heq].
Qed.

End Ranking.

Lemma label_in_topk_S (maxk k : nat) (s : list Q * nat) :
  k < maxk -> maxk <= length (fst s) ->
  (label_in_topk k s = true ->
   Nat.eqb (nth k (topk_row maxk (fst s)) 0) (snd s) = false)
  /\ label_in_topk (S k) s =
       label_in_topk k s || Nat.eqb (nth k (topk_row maxk (fst s)) 0) (snd s).
Proof.
  intros Hk Hmax. unfold label_in_topk.
  rewrite (topk_row_nth _ _ _ Hk). split.
  - apply rank_exclusive. lia.
  - rewrite topk_row_S by lia. rewrite existsb_app. simpl.
    rewrite orb_false_r. f_equal. apply Nat.eqb_sym.
Qed.

Lemma label_in_topk_mono (k k' : nat) (s : list Q * nat) :
  k <= k' -> label_in_topk k s = true -> label_in_topk k' s = true.
Proof.
  intros Hle. unfold label_in_topk, topk_row.
  rewrite !existsb_exists. intros (x & Hx & Hxl). exists x. split; [|exact Hxl].
  revert k k' Hle Hx. induction (argsort_desc (fst s)) as [|y l IH]; intros k k' Hle Hx.
  - rewrite firstn_nil in Hx. contradiction.
  - destruct k as [|k]; simpl in Hx; [contradiction|].
    destruct k' as [|k']; [lia|]. simpl. destruct Hx as [Hx | Hx]; [now left|].
    right. apply (IH k); [lia | exact Hx].
Qed.

(** *** Counting along columns and along samples *)

Lemma combine_map_fst {A B C : Type} (f : A -> C) (l : list A) (l' : list B) :
  combine (map f l) l' = map (fun p => (f (fst p), snd p)) (combine l l').
Proof.
  revert l'. induction l as [|a l IH]; intros [|b l']; simpl; try reflexivity.
  now rewrite IH.
Qed.

Lemma firstn_transpose (k ncols : nat) (m : list (list nat)) :
  k <= ncols -> firstn k (transpose ncols m) = transpose k m.
Proof.
  intros H. unfold transpose. rewrite firstn_map, take_seq.
  now rewrite Nat.min_l.
Qed.

Lemma sum_correct_columns (maxk k : nat) (output : list (list Q)) (target : list nat) :
  sum_correct k (eq_rows (transpose k (map (topk_row maxk) output)) target)
  = list_sum (map (fun j => column_hits maxk j (combine output target)) (seq 0 k)).
Proof.
  unfold sum_correct, eq_rows, transpose.
  rewrite firstn_all2 by (rewrite !length_map, length_seq; lia).
  rewrite map_map.
  induction (seq 0 k) as [|j js IH]; simpl; [reflexivity|].
  rewrite List.filter_app, length_app, IH. f_equal.
  unfold column_hits. rewrite map_map, combine_map_fst, !map_map. reflexivity.
Qed.

Lemma count_in_topk_S (maxk k : nat) (samples : list (list Q * nat)) :
  k < maxk ->
  Forall (fun s => maxk <= length (fst s)) samples ->
  length (List.filter (label_in_topk (S k)) samples)
  = length (List.filter (label_in_topk k) samples) + column_hits maxk k samples.
Proof.
  intros Hk Hall. unfold column_hits.
  induction Hall as [|s samples Hs Hall IH]; [reflexivity|].
  destruct (label_in_topk_S maxk k s Hk Hs) as [Hex HS].
  cbn [List.filter map]. rewrite HS.
  destruct (label_in_topk k s) eqn:E; cbn [orb].
  - rewrite (Hex eq_refl). cbn [length]. rewrite IH. reflexivity.
  - destruct (Nat.eqb (nth k (topk_row maxk (fst s)) 0) (snd s));
      cbn [length]; rewrite IH; lia.
Qed.

Lemma count_in_topk_columns (maxk k : nat) (samples : list (list Q * nat)) :
  k <= maxk ->
  Forall (fun s => maxk <= length (fst s)) samples ->
  length (List.filter (label_in_topk k) samples)
  = list_sum (map (fun j => column_hits maxk j samples) (seq 0 k)).
Proof.
  intros Hk Hall. induction k as [|k IH].
  - simpl. induction samples as [|s samples IHs]; [reflexivity|].
    simpl. apply IHs. now inversion Hall.
  - rewrite seq_S, map_app, list_sum_app. simpl.
    rewrite (count_in_topk_S maxk) by (assumption || lia).
    rewrite IH by lia. lia.
Qed.

(** *** The largest requested rank *)

Lemma fold_max_bounds (ks : list nat) (k : nat) :
  k <= fold_left Nat.max ks k
  /\ Forall (fun x => x <= fold_left Nat.max ks k) ks
  /\ In (fold_left Nat.max ks k) (k :: ks).
Proof.
  revert k. induction ks as [|x ks IH]; intros k; simpl.
  - repeat split; [lia | constructor | now left].
  - destruct (IH (Nat.max k x)) as (Hge & Hall & Hin). repeat split.
    + lia.
    + constructor; [lia | exact Hall].
    + destruct Hin as [Hin | Hin]; [|now right; right].
      destruct (Nat.max_spec k x) as [[_ E] | [_ E]]; rewrite E in *.
      * right. now left.
      * now left.
Qed.

Lemma py_max_Ok (K : list nat) :
  K <> [] ->
  exists maxk, py_max K = Ok maxk /\ In maxk K /\ Forall (fun k => k <= maxk) K.
Proof.
  destruct K as [|k ks]; [congruence|]. intros _.
  destruct (fold_max_bounds ks k) as (Hge & Hall & Hin).
  exists (fold_left Nat.max ks k). repeat split; [exact Hin|]. now constructor.
Qed.

Lemma shape_forallb (classes : nat) (output : list (list Q)) :
  Forall (fun row => length row = classes) output ->
  forallb (fun row => length row =? classes) output = true.
Proof.
  intros H. apply forallb_forall. intros row Hin.
  rewrite Forall_forall in H. apply Nat.eqb_eq. apply H.
  now apply list_elem_of_In.
Qed.

Lemma topk_Ok (k classes : nat) (output : list (list Q)) :
  k <= classes ->
  Forall (fun row => length row = classes) output ->
  topk k classes output = Ok (map (topk_row k) output).
Proof.
  intros Hk Hshape. unfold topk.
  destruct (classes <? k) eqn:E; [apply Nat.ltb_lt in E; lia|].
  now rewrite shape_forallb.
Qed.

Lemma topk_out_of_range (k classes : nat) (output : list (list Q)) :
  classes < k -> topk k classes output = Err RuntimeError.
Proof.
  intros Hk. unfold topk. apply Nat.ltb_lt in Hk. now rewrite Hk.
Qed.

Lemma sum_correct_prefix (maxk k : nat) (pred : list (list nat)) (target : list nat) :
  k <= maxk ->
  sum_correct k (eq_rows (transpose maxk pred) target)
  = sum_correct k (eq_rows (transpose k pred) target).
Proof.
  intros Hk. unfold sum_correct, eq_rows.
  rewrite !firstn_map, (firstn_transpose k maxk) by exact Hk.
  now rewrite (firstn_transpose k k) by lia.
Qed.

Lemma accuracy_sum_entry (classes maxk k : nat) (output : list (list Q))
    (target : list nat) :
  k <= maxk -> maxk <= classes ->
  Forall (fun row => length row = classes) output ->
  sum_correct k (eq_rows (transpose maxk (map (topk_row maxk) output)) target)
  = count_in_topk k output target.
Proof.
  intros Hk Hmax Hshape.
  rewrite sum_correct_prefix by exact Hk.
  rewrite sum_correct_columns. unfold count_in_topk.
  symmetry. apply count_in_topk_columns; [exact Hk|].
  apply List.Forall_forall. intros [row t] Hin. simpl.
  apply in_combine_l in Hin.
  rewrite Forall_forall in Hshape.
  rewrite (Hshape row); [exact Hmax|]. now apply list_elem_of_In.
Qed.

Lemma accuracy_sum_Ok (classes : nat) (output : list (list Q))
    (target : list nat) (K : list nat) :
  K <> [] ->
  Forall (fun k => k <= classes) K ->
  Forall (fun row => length row = classes) output ->
  length target = length output ->
  accuracy_sum classes output target K
  = Ok (map (fun k => (inject_Z (Z.of_nat (count_in_topk k output target)) * 100)%Q) K).
Proof.
  intros Hne HK Hshape Hlen.
  destruct (py_max_Ok K Hne) as (maxk & Hmax & Hin & Hall).
  assert (Hmaxk : maxk <= classes).
  { rewrite Forall_forall in HK. apply HK. now apply list_elem_of_In. }
  unfold accuracy_sum. rewrite Hmax. cbn [bind].
  rewrite (topk_Ok _ _ _ Hmaxk Hshape). cbn [bind].
  unfold expand_target. rewrite (proj2 (Nat.eqb_eq _ _) Hlen). cbn [bind].
  f_equal. apply map_ext_in. intros k Hk. unfold mul_100.
  rewrite (accuracy_sum_entry classes); auto.
  rewrite Forall_forall in Hall. apply Hall. now apply list_elem_of_In.
Qed.



(** C9.  The error conditions of the scorer on a batch of [classes] scores
    per sample, all of them.  An empty tuple of ranks has no largest
    element and Python's [max] raises ValueError.  Otherwise the call
    raises torch's RuntimeError when the largest requested rank exceeds the
    number of classes ([topk] rejects it), and also when the target has
    neither one label per sample nor a single label ([expand_as] rejects
    it); in every other case it returns one entry per requested rank. *)
Theorem accuracy_sum_errors (classes : nat) (output : list (list Q))
    (target : list nat) (K : list nat) :
  Forall (fun row => length row = classes) output ->
  let labels_fit := length target = length output \/ length target = 1 in
  (K = [] -> accuracy_sum classes output target K = Err ValueError)
  /\ (K <> [] ->
      exists maxk,
        py_max K = Ok maxk /\ In maxk K /\ Forall (fun k => k <= maxk) K
        /\ (classes < maxk -> accuracy_sum classes output target K = Err RuntimeError)
        /\ (maxk <= classes -> ~ labels_fit ->
            accuracy_sum classes output target K = Err RuntimeError)
        /\ (maxk <= classes -> labels_fit ->
            exists res, accuracy_sum classes output target K = Ok res
                        /\ length res = length K)).
Proof.
  intros Hshape labels_fit. split; [intros ->; reflexivity|].
  intros Hne. destruct (py_max_Ok K Hne) as (maxk & Hmax & Hin & Hall).
  exists maxk. do 3 (split; [assumption|]).
  split; [|split].
  - intros Hlt. unfold accuracy_sum. rewrite Hmax. cbn [bind].
    now rewrite topk_out_of_range.
  - intros Hle Hfit. unfold accuracy_sum. rewrite Hmax. cbn [bind].
    rewrite (topk_Ok _ _ _ Hle Hshape). cbn [bind]. unfold expand_target.
    destruct (length target =? length output) eqn:E1.
    { exfalso. apply Hfit. left. now apply Nat.eqb_eq. }
    destruct (length target =? 1) eqn:E2.
    { exfalso. apply Hfit. right. now apply Nat.eqb_eq. }
    reflexivity.
  - intros Hle Hfit. unfold accuracy_sum. rewrite Hmax. cbn [bind].
    rewrite (topk_Ok _ _ _ Hle Hshape). cbn [bind]. unfold expand_target.
    destruct (length target =? length output) eqn:E1.
    { cbn [bind]. eexists. split; [reflexivity|]. now rewrite length_map. }
    destruct (length target =? 1) eqn:E2.
    { cbn [bind]. eexists. split; [reflexivity|]. now rewrite length_map. }
    exfalso. destruct Hfit as [H | H].
    + apply Nat.eqb_neq in E1. contradiction.
    + apply Nat.eqb_neq in E2. contradiction.
Qed.

Lemma accuracy_sum_errors_witness :
  accuracy_sum 3 [[1; 3; 2]; [5; 1; 0]]%Q [1; 1; 0] [1; 2] = Err RuntimeError.
Proof.
  destruct (accuracy_sum_errors 3 [[1; 3; 2]; [5; 1; 0]]%Q [1; 1; 0] [1; 2])
    as (_ & H).
  - repeat constructor.
  - destruct H as (maxk & Hmax & _ & _ & _ & Herr & _); [discriminate|].
    injection Hmax as <-. apply Herr; [simpl; lia|].
    simpl. intros [H | H]; discriminate.
Defined.

(** The precondition on the ranks holds and the scorer raises all the same:
    one sample against a target of three labels, with the single rank 1 over
    three classes; and an empty tuple of ranks, for which the largest rank
    does not exist. *)
Lemma accuracy_sum_errors_counterexample :
  py_max [1] = Ok 1
  /\ 1 <= 3
  /\ accuracy_sum 3 [[1; 3; 2]]%Q [0; 1; 2] [1] = Err RuntimeError
  /\ accuracy_sum 3 [[1; 3; 2]]%Q [1] [] = Err ValueError.
Proof. repeat split. lia. Qed.

(** An empty tuple of ranks has no largest element: Python's [max] raises
    before torch is reached. *)
Lemma accuracy_sum_no_ranks (classes : nat) (output : list (list Q)) (target : list nat) :
  accuracy_sum classes output target [] = Err ValueError.
Proof. reflexivity. Qed.

(** *** Monotonicity in the rank *)

Lemma firstn_prefix {A : Type} (k k' : nat) (l : list A) :
  k <= k' -> exists rest, firstn k' l = firstn k l ++ rest.
Proof.
  revert k k'. induction l as [|x l IH]; intros k k' Hle.
  - exists []. now rewrite !firstn_nil.
  - destruct k as [|k]; [now exists (firstn k' (x :: l))|].
    destruct k' as [|k']; [lia|].
    destruct (IH k k') as [rest Hrest]; [lia|].
    exists rest. simpl. now rewrite Hrest.
Qed.

Lemma sum_correct_mono (k k' : nat) (correct : list (list bool)) :
  k <= k' -> sum_correct k correct <= sum_correct k' correct.
Proof.
  intros Hle. unfold sum_correct.
  destruct (firstn_prefix k k' correct Hle) as [rest ->].
  rewrite concat_app, List.filter_app, length_app. lia.
Qed.

Lemma mul_100_mono (c c' : nat) : c <= c' -> (mul_100 c <= mul_100 c')%Q.
Proof.
  intros Hle. unfold mul_100. apply Qmult_le_compat_r; [|discriminate].
  rewrite <- Zle_Qle. lia.
Qed.

(** C7.  A sample whose true label is within the top [k] is within the top
    [k'] for every [k' >= k]; so whenever the scorer returns, its entry for
    a smaller requested rank is at most its entry for a larger one, and for
    the ranks the program requests the top-1 entry is at most the top-5
    entry. *)
Theorem accuracy_sum_monotone (classes : nat) (output : list (list Q))
    (target : list nat) (K : list nat) (res : list Q) :
  accuracy_sum classes output target K = Ok res ->
  (forall k k' s, k <= k' -> label_in_topk k s = true -> label_in_topk k' s = true)
  /\ (forall i j k k',
        nth_error K i = Some k -> nth_error K j = Some k' -> k <= k' ->
        exists c c', nth_error res i = Some c /\ nth_error res j = Some c'
                     /\ (c <= c')%Q)
  /\ (K = [1; 5] -> exists prec1 prec5, res = [prec1; prec5] /\ (prec1 <= prec5)%Q).
Proof.
  intros Hres.
  assert (Hmap : exists correct,
             res = map (fun k => mul_100 (sum_correct k correct)) K).
  { unfold accuracy_sum in Hres.
    apply bind_Ok in Hres as (maxk & _ & Hres).
    apply bind_Ok in Hres as (pred & _ & Hres).
    apply bind_Ok in Hres as (expanded & _ & Hres).
    injection Hres as <-. eauto. }
  destruct Hmap as [correct ->].
  split; [intros k k' s; apply label_in_topk_mono|]. split.
  - intros i j k k' Hi Hj Hle.
    exists (mul_100 (sum_correct k correct)), (mul_100 (sum_correct k' correct)).
    rewrite !nth_error_map, Hi, Hj. repeat split.
    apply mul_100_mono, sum_correct_mono, Hle.
  - intros ->. simpl. do 2 eexists. split; [reflexivity|].
    apply mul_100_mono, sum_correct_mono. lia.
Qed.

Lemma accuracy_sum_monotone_witness :
  exists prec1 prec5,
    accuracy_sum 5 [[1; 3; 2; 0; 0]; [5; 1; 0; 0; 0]]%Q [1; 1] [1; 5] = Ok [prec1; prec5]
    /\ (prec1 <= prec5)%Q.
Proof.
  destruct (accuracy_sum_monotone 5 [[1; 3; 2; 0; 0]; [5; 1; 0; 0; 0]]%Q [1; 1] [1; 5]
              [(inject_Z 1 * 100)%Q; (inject_Z 2 * 100)%Q] eq_refl)
    as (_ & _ & H).
  destruct (H eq_refl) as (p1 & p5 & Heq & Hle).
  exists p1, p5. split; [now rewrite <- Heq | exact Hle].
Defined.

(** ** process and the loop of validate *)

Lemma batch_ok_inv (b : batch) :
  batch_ok b = true ->
  length (target b) = length (output b)
  /\ Forall (fun row => length row = classes b) (output b)
  /\ 5 <= classes b
  /\ 0 < shape0 b.
Proof.
  unfold batch_ok, shape0. rewrite !andb_true_iff.
  intros [[[H1 H2] H3] H4].
  apply Nat.eqb_eq in H1. apply Nat.leb_le in H3. apply Nat.ltb_lt in H4.
  repeat split; try lia.
  apply List.Forall_forall. intros row Hin.
  rewrite forallb_forall in H2. apply Nat.eqb_eq. now apply H2.
Qed.

Lemma local_statistics_Ok (b : batch) :
  batch_ok b = true -> local_statistics b = Ok (batch_stats b).
Proof.
  intros Hok. apply batch_ok_inv in Hok as (Hlen & Hshape & Hcls & _).
  unfold local_statistics.
  rewrite (accuracy_sum_Ok (classes b) (output b) (target b) [1; 5]);
    [reflexivity | discriminate | | exact Hshape | exact Hlen].
  repeat constructor; lia.
Qed.

Lemma batch_count_pos (b : batch) :
  batch_ok b = true -> (0 < s_count (batch_stats b))%Q.
Proof.
  intros Hok. apply batch_ok_inv in Hok as (_ & _ & _ & Hpos). simpl.
  change 0%Q with (inject_Z 0). rewrite <- Zlt_Qlt. lia.
Qed.

Lemma reduce_and_update_Ok (reduce : option (Q -> Q)) (c : Q)
    (meter : AverageMeter.t) (v : Q) :
  (0 < c)%Q -> (0 <= AverageMeter.count meter)%Q ->
  reduce_and_update reduce c meter v
  = Ok (updated meter (match reduce with Some f => f v | None => v end) c).
Proof.
  intros Hc Hm. unfold reduce_and_update, tensor_div.
  destruct (Qeq_bool c 0) eqn:E.
  { apply Qeq_bool_iff in E. lra. }
  cbn [bind]. rewrite update_Ok; [reflexivity | lra].
Qed.

Lemma process_Ok (b : batch) (ar : option reducer) (m : meters) :
  batch_ok b = true -> meters_nonneg m ->
  (forall r, ar = Some r -> (0 < red_apply r Count (s_count (batch_stats b)))%Q) ->
  let s := batch_stats b in
  let red sl := match ar with Some r => red_apply r sl (select sl s) | None => select sl s end in
  let m' := {| losses := updated (losses m) (red Loss) (red Count);
               top1 := updated (top1 m) (red Prec1) (red Count);
               top5 := updated (top5 m) (red Prec5) (red Count) |} in
  process b ar m
  = Ok (m', match ar with
            | Some r => repeat (AllReduce (red_group r)) 4
            | None => []
            end)
  /\ meters_nonneg m'.
Proof.
  intros Hok (Hl & H1 & H5) Hpos s red m'.
  assert (Hc : (0 < red Count)%Q).
  { unfold red. destruct ar as [r|]; [now apply Hpos | now apply batch_count_pos]. }
  split.
  - unfold process. rewrite (local_statistics_Ok b Hok). cbn [bind]. fold s.
    destruct ar as [r|]; cbn [option_map];
      rewrite !reduce_and_update_Ok by assumption; reflexivity.
  - unfold meters_nonneg, m'. simpl. repeat split; lra.
Qed.

Lemma validate_step_world (d : dist) (lgs i : nat) (b : batch) (m : meters) :
  (1 <? shape0 b) || (lgs =? 0) = true ->
  validate_step d lgs i b m
  = process b (if is_initialized d
               then Some (partial World (dist_all_reduce d i World))
               else None) m.
Proof. intros H. unfold validate_step. now rewrite H. Qed.

Lemma validate_step_sub (d : dist) (lgs i : nat) (b : batch) (m : meters) :
  (1 <? shape0 b) || (lgs =? 0) = false ->
  validate_step d lgs i b m
  = let! r := process b (Some (partial (Sub (seq 0 lgs))
                                 (dist_all_reduce d i (Sub (seq 0 lgs))))) m in
    Ok (fst r, NewGroup (seq 0 lgs) :: snd r).
Proof. intros H. unfold validate_step. now rewrite H. Qed.

Lemma validate_step_Ok (d : dist) (lgs i : nat) (b : batch) (m : meters) :
  count_positive d -> batch_ok b = true -> meters_nonneg m ->
  exists m',
    validate_step d lgs i b m = Ok (m', step_calls (is_initialized d) lgs b)
    /\ meters_nonneg m'.
Proof.
  intros Hd Hok Hm. unfold step_calls.
  destruct ((1 <? shape0 b) || (lgs =? 0)) eqn:E.
  - rewrite validate_step_world by exact E.
    destruct (is_initialized d).
    + edestruct (process_Ok b (Some (partial World (dist_all_reduce d i World))) m)
        as [Hp Hn]; try eassumption.
      { intros r [= <-]. simpl. apply Hd. now apply batch_count_pos. }
      rewrite Hp. eauto.
    + edestruct (process_Ok b None m) as [Hp Hn]; try eassumption.
      { intros r [=]. }
      rewrite Hp. eauto.
  - rewrite validate_step_sub by exact E.
    edestruct (process_Ok b (Some (partial (Sub (seq 0 lgs))
                                     (dist_all_reduce d i (Sub (seq 0 lgs))))) m)
      as [Hp Hn]; try eassumption.
    { intros r [= <-]. simpl. apply Hd. now apply batch_count_pos. }
    rewrite Hp. cbn [bind fst snd red_group]. eauto.
Qed.

Lemma validate_loop_Ok (d : dist) (lgs : nat) (val_loader : list batch) :
  count_positive d ->
  Forall (fun b => batch_ok b = true) val_loader ->
  forall i m, meters_nonneg m ->
  exists m',
    validate_loop d lgs i val_loader m
    = Ok (m', map (step_calls (is_initialized d) lgs) val_loader)
    /\ meters_nonneg m'.
Proof.
  intros Hd Hall. induction Hall as [|b rest Hb Hall IH]; intros i m Hm; simpl.
  - eauto.
  - destruct (validate_step_Ok d lgs i b m Hd Hb Hm) as (m1 & H1 & Hm1).
    rewrite H1. cbn [bind fst snd].
    destruct (IH (S i) m1 Hm1) as (m2 & H2 & Hm2).
    rewrite H2. cbn [bind fst snd]. eauto.
Qed.

Lemma meters_init_nonneg : meters_nonneg meters_init.
Proof. unfold meters_nonneg. simpl. repeat split; lra. Qed.

(** The calls after the loop, from the last batch the worker has seen. *)
Lemma validate_Ok (d : dist) (dataset_len : nat) (val_loader : list batch) (input : batch) :
  count_positive d ->
  Forall (fun b => batch_ok b = true) val_loader ->
  last val_loader = Some input ->
  (if is_initialized d then get_world_size d else 1) <> 0 ->
  let rank := if is_initialized d then get_rank d else 0 in
  let lgs := dataset_len mod (if is_initialized d then get_world_size d else 1) in
  exists v,
    validate d dataset_len val_loader = Ok v
    /\ v_steps v = map (step_calls (is_initialized d) lgs) val_loader
    /\ v_post v = (if (shape0 input =? 1) && ((lgs <? rank) && (0 <? lgs))
                   then [NewGroup (seq 0 lgs)] else [])
    /\ v_return v = AverageMeter.avg (top1 (v_meters v))
    /\ validate_loop d lgs 0 val_loader meters_init
       = Ok (v_meters v, v_steps v).
Proof.
  intros Hd Hall Hlast Hws rank lgs. unfold validate.
  destruct ((if is_initialized d then get_world_size d else 1) =? 0) eqn:E.
  { apply Nat.eqb_eq in E. contradiction. }
  fold lgs.
  destruct (validate_loop_Ok d lgs val_loader Hd Hall 0 meters_init meters_init_nonneg)
    as (m' & Hloop & _).
  rewrite Hloop. cbn [bind fst snd]. rewrite Hlast. fold rank.
  eexists. split; [reflexivity|]. simpl. repeat split; try reflexivity.
Qed.

(** *** The mocked all-reduce *)

Lemma sum_Q_nonneg (l : list Q) : Forall (fun x => (0 <= x)%Q) l -> (0 <= sum_Q l)%Q.
Proof.
  induction 1 as [|x l Hx _ IH]; simpl; [lra|]. lra.
Qed.

Lemma sum_Q_pos (l : list Q) (x : Q) :
  Forall (fun y => (0 <= y)%Q) l -> In x l -> (0 < x)%Q -> (0 < sum_Q l)%Q.
Proof.
  intros Hall Hin Hx. induction Hall as [|y l Hy Hall IH]; simpl in *; [contradiction|].
  destruct Hin as [-> | Hin].
  - pose proof (sum_Q_nonneg l Hall). lra.
  - specialize (IH Hin). lra.
Qed.

Lemma local_statistics_count (b : batch) (s : stats) :
  local_statistics b = Ok s -> s_count s = inject_Z (Z.of_nat (shape0 b)).
Proof.
  unfold local_statistics. intros H. apply bind_Ok in H as (res & _ & H).
  destruct res as [|p1 [|p5 [|? ?]]]; try discriminate.
  now injection H as <-.
Qed.

Lemma local_sum_count_nonneg (loader : list batch) (i : nat) :
  (0 <= local_sum loader i Count)%Q.
Proof.
  unfold local_sum. destruct (loader !! i) as [b|]; [|lra].
  destruct (local_statistics b) as [s|e] eqn:E; [|lra].
  simpl. rewrite (local_statistics_count b s E).
  change 0%Q with (inject_Z 0). rewrite <- Zle_Qle. lia.
Qed.

Lemma contribution_count_nonneg (choose : batch -> group) (loader : list batch)
    (r i : nat) (g : group) :
  (0 <= contribution choose loader r i g Count)%Q.
Proof.
  unfold contribution. destruct (loader !! i) as [b|]; [|lra].
  destruct (bool_decide (choose b = g) && member r g); [|lra].
  apply local_sum_count_nonneg.
Qed.

Lemma worker_count_positive (choose : batch -> group) (loaders : list (list batch)) (r : nat) :
  r < length loaders -> count_positive (worker choose loaders r).
Proof.
  intros Hr i g x Hx. simpl. unfold mock_all_reduce.
  destruct (member r g); [|exact Hx].
  apply (sum_Q_pos _ x); [| |exact Hx].
  - apply List.Forall_forall. intros y Hy.
    apply in_map_iff in Hy as (r' & <- & _).
    destruct (r' =? r); [lra | apply contribution_count_nonneg].
  - apply in_map_iff. exists r. rewrite Nat.eqb_refl. split; [reflexivity|].
    apply in_seq. lia.
Qed.

Lemma local_sum_at (loader : list batch) (i : nat) (b : batch) (sl : slot) :
  loader !! i = Some b -> batch_ok b = true ->
  local_sum loader i sl = select sl (batch_stats b).
Proof.
  intros Hb Hok. unfold local_sum. now rewrite Hb, (local_statistics_Ok b Hok).
Qed.

Lemma contribution_member (choose : batch -> group) (loader : list batch)
    (r i : nat) (g : group) (sl : slot) (b : batch) :
  loader !! i = Some b -> choose b = g -> member r g = true ->
  contribution choose loader r i g sl = local_sum loader i sl.
Proof.
  intros Hb Hg Hm. unfold contribution. rewrite Hb, Hm.
  now rewrite bool_decide_eq_true_2.
Qed.

(** When every other worker's contribution is its local tensor, a member
    receives the centrally computed sum. *)
Lemma mock_all_reduce_central (choose : batch -> group) (loaders : list (list batch))
    (r i : nat) (g : group) (sl : slot) (b : batch) :
  nth r loaders [] !! i = Some b -> batch_ok b = true ->
  member r g = true ->
  (forall r', r' < length loaders -> r' <> r ->
     contribution choose (nth r' loaders []) r' i g sl
     = local_sum (nth r' loaders []) i sl) ->
  mock_all_reduce choose loaders r i g sl (select sl (batch_stats b))
  = central_sum loaders i sl.
Proof.
  intros Hb Hok Hm Hothers. unfold mock_all_reduce, central_sum. rewrite Hm.
  f_equal. apply map_ext_in. intros r' Hin. apply in_seq in Hin.
  destruct (r' =? r) eqn:E.
  - apply Nat.eqb_eq in E. subst r'. symmetry. now apply local_sum_at.
  - apply Nat.eqb_neq in E. apply Hothers; [lia | exact E].
Qed.

Lemma central_sum_single (loader : list batch) (i : nat) (sl : slot) :
  (central_sum [loader] i sl == local_sum loader i sl)%Q.
Proof. unfold central_sum. simpl. lra. Qed.

(** What a worker holds after the reduction of an even step. *)
Lemma even_step_reduced (choose : batch -> group) (loaders : list (list batch))
    (r i : nat) (b : batch) (sl : slot) :
  (forall r', r' < length loaders ->
     exists b', nth r' loaders [] !! i = Some b' /\ choose b' = World) ->
  r < length loaders ->
  nth r loaders [] !! i = Some b -> batch_ok b = true ->
  ((if 1 <? length loaders
    then mock_all_reduce choose loaders r i World sl (select sl (batch_stats b))
    else select sl (batch_stats b)) == central_sum loaders i sl)%Q.
Proof.
  intros Hall Hr Hb Hok.
  destruct (1 <? length loaders) eqn:E.
  - rewrite (mock_all_reduce_central choose loaders r i World sl b);
      [reflexivity | assumption | assumption | reflexivity |].
    intros r' Hr' _. destruct (Hall r' Hr') as (b' & Hb' & Hg).
    now apply (contribution_member choose _ r' i World sl b').
  - apply Nat.ltb_ge in E.
    destruct loaders as [|loader [|? ?]]; simpl in *; try lia.
    assert (r = 0) by lia. subst r. simpl in Hb.
    rewrite central_sum_single. now rewrite (local_sum_at loader i b).
Qed.

Lemma train_step_Ok (d : dist) (i : nat) (b : batch) (m : meters) :
  batch_ok b = true -> meters_nonneg m -> count_positive d ->
  let s := batch_stats b in
  let red sl := if is_initialized d then dist_all_reduce d i World sl (select sl s)
                else select sl s in
  let m' := {| losses := updated (losses m) (red Loss) (red Count);
               top1 := updated (top1 m) (red Prec1) (red Count);
               top5 := updated (top5 m) (red Prec5) (red Count) |} in
  train_step d i b m
  = Ok (m', if is_initialized d then repeat (AllReduce World) 4 else [])
  /\ meters_nonneg m'.
Proof.
  intros Hok (Hl & H1 & H5) Hd s red m'.
  assert (Hc : (0 < red Count)%Q).
  { unfold red. destruct (is_initialized d);
      [apply Hd|]; now apply batch_count_pos. }
  pose proof (batch_ok_inv b Hok) as (Hlen & Hshape & Hcls & _).
  split.
  - unfold train_step.
    rewrite (accuracy_sum_Ok (classes b) (output b) (target b) [1; 5]);
      [| discriminate | repeat constructor; lia | exact Hshape | exact Hlen].
    cbn [bind map]. unfold red in Hc. unfold m', red.
    destruct (is_initialized d);
      rewrite !reduce_and_update_Ok by assumption; reflexivity.
  - unfold meters_nonneg, m'. simpl. repeat split; lra.
Qed.

(** C3.  In a step for which every worker has a batch and addresses the
    default group (every step of [train]; in [validate] a batch of more than
    one sample, or a remainder of zero), each worker's meters receive, for the loss and for both
    accuracy ranks, the all-reduced sum divided by the all-reduced sample
    count, which equals the centrally computed quotient of the sum of the
    workers' local sums by the sum of their local sample counts; the weight
    of the update is that same summed count.  This holds for the loop of
    [validate] and for the metric block of [train], for any number of
    workers. *)
Theorem aggregation_even_case (loaders : list (list batch)) (dataset_len : nat)
    (r i : nat) (b : batch) (m : meters) :
  (forall r', r' < length loaders ->
     exists b', nth r' loaders [] !! i = Some b' /\ batch_ok b' = true) ->
  r < length loaders ->
  nth r loaders [] !! i = Some b ->
  meters_nonneg m ->
  let mean sl := (central_sum loaders i sl / central_sum loaders i Count)%Q in
  let collectives := if 1 <? length loaders then repeat (AllReduce World) 4 else [] in
  let aggregated (m' : meters) :=
    (AverageMeter.val (losses m') == mean Loss)%Q
    /\ (AverageMeter.val (top1 m') == mean Prec1)%Q
    /\ (AverageMeter.val (top5 m') == mean Prec5)%Q
    /\ (AverageMeter.count (losses m')
        == AverageMeter.count (losses m) + central_sum loaders i Count)%Q in
  local_sum (nth r loaders []) i Count = inject_Z (Z.of_nat (shape0 b))
  /\ local_sum (nth r loaders []) i Loss = (loss b * inject_Z (Z.of_nat (shape0 b)))%Q
  /\ (exists m', train_step (train_worker loaders r) i b m = Ok (m', collectives)
                 /\ aggregated m')
  /\ ((forall r' b', r' < length loaders -> nth r' loaders [] !! i = Some b' ->
         step_group (dataset_len mod length loaders) b' = World) ->
      exists m', validate_step (val_worker loaders dataset_len r)
                   (dataset_len mod length loaders) i b m = Ok (m', collectives)
                 /\ aggregated m').
Proof.
  intros Hall Hr Hb Hm mean collectives aggregated.
  destruct (Hall r Hr) as (b0 & Hb0 & Hok). rewrite Hb in Hb0. injection Hb0 as <-.
  split; [now rewrite (local_sum_at _ i b)|].
  split; [now rewrite (local_sum_at _ i b)|].
  split.
  - pose proof (worker_count_positive (fun _ => World) loaders r Hr) as Hd.
    destruct (train_step_Ok (train_worker loaders r) i b m Hok Hm Hd) as [Hstep _].
    eexists. split; [exact Hstep|].
    assert (Hred : forall sl,
              ((if 1 <? length loaders
                then mock_all_reduce (fun _ => World) loaders r i World sl
                       (select sl (batch_stats b))
                else select sl (batch_stats b)) == central_sum loaders i sl)%Q).
    { intros sl. apply even_step_reduced; try assumption.
      intros r' Hr'. destruct (Hall r' Hr') as (b' & Hb' & _). eauto. }
    unfold aggregated, mean. cbn -[central_sum mock_all_reduce Qdiv].
    rewrite <- !Hred. repeat split; reflexivity.
  - intros Hgroup.
    set (choose := step_group (dataset_len mod length loaders)).
    assert (Hcond : (1 <? shape0 b) || (dataset_len mod length loaders =? 0) = true).
    { specialize (Hgroup r b Hr Hb). unfold step_group in Hgroup.
      destruct ((1 <? shape0 b) || (dataset_len mod length loaders =? 0));
        [reflexivity | discriminate]. }
    rewrite validate_step_world by exact Hcond.
    pose proof (worker_count_positive choose loaders r Hr) as Hd.
    assert (Hred : forall sl,
              ((if 1 <? length loaders
                then mock_all_reduce choose loaders r i World sl
                       (select sl (batch_stats b))
                else select sl (batch_stats b)) == central_sum loaders i sl)%Q).
    { intros sl. apply even_step_reduced; try assumption.
      intros r' Hr'. destruct (Hall r' Hr') as (b' & Hb' & _).
      exists b'. split; [exact Hb'|]. now apply (Hgroup r'). }
    unfold val_worker. fold choose. cbn [is_initialized worker].
    unfold collectives. destruct (1 <? length loaders) eqn:E.
    + edestruct (process_Ok b (Some (partial World
                   (dist_all_reduce (worker choose loaders r) i World))) m)
        as [Hp _]; try eassumption.
      { intros rd [= <-]. simpl. apply (Hd i World). now apply batch_count_pos. }
      eexists. split; [exact Hp|].
      unfold aggregated, mean. cbn -[central_sum mock_all_reduce Qdiv].
      rewrite <- !Hred. repeat split; reflexivity.
    + edestruct (process_Ok b None m) as [Hp _]; try eassumption.
      { intros rd [=]. }
      eexists. split; [exact Hp|].
      unfold aggregated, mean. cbn -[central_sum mock_all_reduce Qdiv].
      rewrite <- !Hred. repeat split; reflexivity.
Qed.

(** ** Lists *)

Lemma lookup_map {A B : Type} (f : A -> B) (l : list A) (i : nat) (a : A) :
  l !! i = Some a -> map f l !! i = Some (f a).
Proof.
  revert i. induction l as [|x l IH]; intros [|i] H; simpl in *;
    try discriminate.
  - now injection H as ->.
  - now apply IH.
Qed.

(** ** A single worker *)

Lemma local_step_nonneg (m : meters) (b : batch) :
  batch_ok b = true -> meters_nonneg m -> meters_nonneg (local_step m b).
Proof.
  intros Hok (Hl & H1 & H5). pose proof (batch_count_pos b Hok).
  unfold meters_nonneg, local_step. simpl in *. repeat split; lra.
Qed.

Lemma validate_loop_local (d : dist) (val_loader : list batch) :
  is_initialized d = false ->
  Forall (fun b => batch_ok b = true) val_loader ->
  forall i m, meters_nonneg m ->
  validate_loop d 0 i val_loader m
  = Ok (fold_left local_step val_loader m, map (fun _ => []) val_loader).
Proof.
  intros Hd Hall. induction Hall as [|b rest Hb Hall IH]; intros i m Hm; simpl.
  - reflexivity.
  - rewrite validate_step_world by apply orb_true_r. rewrite Hd.
    destruct (process_Ok b None m Hb Hm) as [Hp Hn]; [intros r [=]|].
    rewrite Hp. cbn [bind fst snd].
    match goal with
    | |- context [validate_loop d 0 (S i) rest ?M] => change M with (local_step m b)
    end.
    rewrite (IH (S i) (local_step m b)) by exact (local_step_nonneg m b Hb Hm).
    reflexivity.
Qed.

Lemma train_loop_local (d : dist) (train_loader : list batch) :
  is_initialized d = false ->
  Forall (fun b => batch_ok b = true) train_loader ->
  forall i m, meters_nonneg m ->
  train_loop d i train_loader m
  = Ok (fold_left local_step train_loader m, map (fun _ => []) train_loader).
Proof.
  intros Hd Hall. induction Hall as [|b rest Hb Hall IH]; intros i m Hm; simpl.
  - reflexivity.
  - pose proof (batch_ok_inv b Hb) as (Hlen & Hshape & Hcls & _).
    pose proof (batch_count_pos b Hb) as Hpos.
    pose proof Hm as (Hl & H1 & H5).
    unfold train_step.
    rewrite (accuracy_sum_Ok (classes b) (output b) (target b) [1; 5]);
      [| discriminate | repeat constructor; lia | exact Hshape | exact Hlen].
    cbn [bind map]. rewrite Hd.
    rewrite !reduce_and_update_Ok by assumption. cbn [bind fst snd].
    match goal with
    | |- context [train_loop d (S i) rest ?M] => change M with (local_step m b)
    end.
    rewrite (IH (S i) (local_step m b)) by exact (local_step_nonneg m b Hb Hm).
    reflexivity.
Qed.

Lemma concat_no_calls {A : Type} (l : list A) :
  concat (map (fun _ => @nil call) l) = [].
Proof. induction l as [|a l IH]; simpl; [reflexivity | exact IH]. Qed.

(** The sums a meter has accumulated after a run of local steps. *)
Lemma local_fold_sums (sl : slot) (loader : list batch) :
  sl <> Count ->
  Forall (fun b => batch_ok b = true) loader ->
  forall m,
    (AverageMeter.sum (meter_of sl (fold_left local_step loader m))
     == AverageMeter.sum (meter_of sl m)
        + sum_Q (map (fun b => select sl (batch_stats b)) loader))%Q
    /\ (AverageMeter.count (meter_of sl (fold_left local_step loader m))
        == AverageMeter.count (meter_of sl m)
           + sum_Q (map (fun b => s_count (batch_stats b)) loader))%Q.
Proof.
  intros Hsl Hall. induction Hall as [|b rest Hb Hall IH]; intros m.
  - simpl. split; lra.
  - cbn [fold_left map sum_Q]. destruct (IH (local_step m b)) as [IHs IHc].
    rewrite IHs, IHc. pose proof (batch_count_pos b Hb) as Hpos.
    assert (Hdiv : forall v, (v / s_count (batch_stats b) * s_count (batch_stats b) == v)%Q).
    { intros v. field. lra. }
    destruct sl; try congruence; cbn [meter_of local_step losses top1 top5 updated
      AverageMeter.sum AverageMeter.count select];
      rewrite Hdiv; change (sum_Q (?x :: ?l)) with (x + sum_Q l)%Q; split; lra.
Qed.

Lemma local_fold_avg (sl : slot) (loader : list batch) (m : meters) :
  loader <> [] ->
  AverageMeter.avg (meter_of sl (fold_left local_step loader m))
  = (AverageMeter.sum (meter_of sl (fold_left local_step loader m))
     / AverageMeter.count (meter_of sl (fold_left local_step loader m)))%Q.
Proof.
  intros Hne. destruct (exists_last Hne) as (l & b & ->).
  rewrite fold_left_app. simpl. destruct sl; reflexivity.
Qed.

Lemma local_meters_ratio (sl : slot) (loader : list batch) :
  sl <> Count -> loader <> [] ->
  Forall (fun b => batch_ok b = true) loader ->
  (AverageMeter.avg (meter_of sl (fold_left local_step loader meters_init))
   == local_ratio sl loader)%Q.
Proof.
  intros Hsl Hne Hall. rewrite (local_fold_avg sl loader _ Hne).
  destruct (local_fold_sums sl loader Hsl Hall meters_init) as [Hs Hc].
  rewrite Hs, Hc. unfold local_ratio.
  assert (H0s : AverageMeter.sum (meter_of sl meters_init) = 0%Q) by now destruct sl.
  assert (H0c : AverageMeter.count (meter_of sl meters_init) = 0%Q) by now destruct sl.
  rewrite H0s, H0c, !Qplus_0_l. reflexivity.
Qed.

(** C10.  With a single worker the process group is never initialised:
    neither the evaluation pass nor the metric block of training issues a
    collective call or forms a group, the test of line 289 always takes the
    first branch because the remainder of a division by one is zero, and the
    averages reported for the loss and both accuracy ranks are the ratios
    computed from the worker's own batches. *)
Theorem single_worker_local (d : dist) (dataset_len : nat) (loader : list batch) :
  is_initialized d = false ->
  loader <> [] ->
  Forall (fun b => batch_ok b = true) loader ->
  (forall environ distributed,
     main_world_size environ = (distributed, 1%Z) -> distributed = false)
  /\ is_initialized (val_worker [loader] dataset_len 0) = false
  /\ (forall b, step_group (dataset_len mod 1) b = World)
  /\ (exists v,
        validate d dataset_len loader = Ok v
        /\ concat (v_steps v) ++ v_post v = []
        /\ (v_return v == local_ratio Prec1 loader)%Q
        /\ forall sl, sl <> Count ->
             (AverageMeter.avg (meter_of sl (v_meters v)) == local_ratio sl loader)%Q)
  /\ (exists m steps,
        train d loader = Ok (m, steps)
        /\ concat steps = []
        /\ forall sl, sl <> Count ->
             (AverageMeter.avg (meter_of sl m) == local_ratio sl loader)%Q).
Proof.
  intros Hd Hne Hall. split; [|split; [reflexivity|split; [|split]]].
  - intros [w|] distributed; simpl; intros H; injection H as <-; [|reflexivity].
    subst w. reflexivity.
  - intros b. unfold step_group. rewrite Nat.mod_1_r. now rewrite orb_true_r.
  - unfold validate. rewrite Hd. cbn [Nat.eqb]. rewrite Nat.mod_1_r.
    rewrite (validate_loop_local d loader Hd Hall 0 meters_init meters_init_nonneg).
    cbn [bind fst snd].
    destruct (last loader) as [input|] eqn:Hlast.
    2:{ apply last_None in Hlast. contradiction. }
    rewrite !andb_false_r.
    eexists. split; [reflexivity|]. cbn [v_steps v_post v_return v_meters].
    split; [now rewrite concat_no_calls|]. split.
    + apply (local_meters_ratio Prec1); [discriminate | assumption | assumption].
    + intros sl Hsl. now apply local_meters_ratio.
  - unfold train.
    rewrite (train_loop_local d loader Hd Hall 0 meters_init meters_init_nonneg).
    do 2 eexists. split; [reflexivity|]. split; [apply concat_no_calls|].
    intros sl Hsl. now apply local_meters_ratio.
Qed.

(** ** Witnesses of the aggregation statements *)

Lemma aggregation_even_case_witness :
  (exists m',
     train_step (train_worker (job 2 7 4) 1) 0 (batch_of 3) meters_init
     = Ok (m', repeat (AllReduce World) 4)
     /\ (AverageMeter.val (losses m')
         == central_sum (job 2 7 4) 0 Loss / central_sum (job 2 7 4) 0 Count)%Q)
  /\ (exists m',
        validate_step (val_worker (job 2 7 4) 7 1) (7 mod 2) 0 (batch_of 3) meters_init
        = Ok (m', repeat (AllReduce World) 4)
        /\ (AverageMeter.val (top1 m')
            == central_sum (job 2 7 4) 0 Prec1 / central_sum (job 2 7 4) 0 Count)%Q
        /\ (AverageMeter.count (losses m') == 0 + central_sum (job 2 7 4) 0 Count)%Q).
Proof.
  destruct (aggregation_even_case (job 2 7 4) 7 1 0 (batch_of 3) meters_init)
    as (_ & _ & (m' & Hstep & Hloss & _) & Hval).
  - intros r' Hr'. simpl in Hr'.
    destruct r' as [|[|r']]; [| |lia]; eexists; split; reflexivity.
  - simpl. lia.
  - reflexivity.
  - unfold meters_nonneg. simpl. repeat split; discriminate.
  - split; [exists m'; split; [exact Hstep | exact Hloss]|].
    destruct Hval as (m'' & Hstep' & _ & Htop1 & _ & Hcount).
    + intros r' b' Hr' Hb'. simpl in Hr'.
      destruct r' as [|[|r']]; [| |lia]; simpl in Hb'; injection Hb' as <-; reflexivity.
    + exists m''. split; [exact Hstep'|]. split; [exact Htop1 | exact Hcount].
Defined.

(** Two workers, three samples, batches of two: each worker has a
    well-formed batch for step 0, of two samples and loss 1 for worker 0, of
    one sample and loss 3 for worker 1.  The remainder is 1, so worker 1
    takes the second branch of line 289: worker 0 reduces over the default
    group and records 1, worker 1 over the group of rank 0 alone and records
    its own 3 with weight 1, where the central quotient is 5/3 over 3
    samples; and the pass does not complete. *)
Lemma aggregation_even_case_counterexample :
  let loaders := [[with_loss (batch_of 2) 1]; [with_loss (batch_of 1) 3]] in
  (forall r, r < length loaders ->
     exists b, nth r loaders [] !! 0 = Some b /\ batch_ok b = true)
  /\ (central_sum loaders 0 Loss / central_sum loaders 0 Count == 5 # 3)%Q
  /\ (central_sum loaders 0 Count == 3)%Q
  /\ (exists m0 m1,
        validate_step (val_worker loaders 3 0) (3 mod 2) 0
          (with_loss (batch_of 2) 1) meters_init
        = Ok (m0, repeat (AllReduce World) 4)
        /\ validate_step (val_worker loaders 3 1) (3 mod 2) 0
             (with_loss (batch_of 1) 3) meters_init
           = Ok (m1, NewGroup [0] :: repeat (AllReduce (Sub [0])) 4)
        /\ (AverageMeter.val (losses m0) == 1)%Q
        /\ (AverageMeter.val (losses m1) == 3)%Q
        /\ (AverageMeter.count (losses m1) == 1)%Q)
  /\ pass_completes loaders 3 = false.
Proof.
  cbv zeta. split; [|split; [|split; [|split]]].
  - intros r Hr. simpl in Hr.
    destruct r as [|[|r]]; [| |lia]; eexists; split; reflexivity.
  - vm_compute. reflexivity.
  - vm_compute. reflexivity.
  - do 2 eexists. split; [vm_compute; reflexivity|].
    split; [vm_compute; reflexivity|].
    repeat split; vm_compute; reflexivity.
  - vm_compute. reflexivity.
Qed.

Lemma single_worker_local_witness :
  exists v,
    validate (val_worker (job 1 6 4) 6 0) 6 (nth 0 (job 1 6 4) []) = Ok v
    /\ concat (v_steps v) ++ v_post v = []
    /\ (v_return v == local_ratio Prec1 (nth 0 (job 1 6 4) []))%Q.
Proof.
  destruct (single_worker_local (val_worker (job 1 6 4) 6 0) 6 (nth 0 (job 1 6 4) []))
    as (_ & _ & _ & (v & Hv & Hcalls & Hret & _) & _).
  - reflexivity.
  - discriminate.
  - repeat constructor.
  - exists v. split; [exact Hv|]. split; [exact Hcalls | exact Hret].
Defined.

(** ** The evaluation pass as a whole *)

(** With batches of two samples per worker, the simulated pass completes
    for exactly those of the 400 pairs whose remainder is zero. *)
Lemma pass_completes_batch_2 :
  forallb (fun world_size =>
    forallb (fun dataset_len =>
      Bool.eqb (pass_completes (job world_size dataset_len 2) dataset_len)
               (dataset_len mod world_size =? 0))
      (seq 1 50))
    (seq 1 8) = true.
Proof. vm_compute. reflexivity. Qed.

(** C2, evaluated on the code.  Three workers, ten samples, batches of
    two, so that the remainder is 1: the final step finds worker 0, the only
    rank below the remainder, with a batch of two samples and workers 1 and
    2 with a batch of one.  Line 289 decides by the size of the batch alone:
    worker 0 issues its four all-reduces over the default group, and workers
    1 and 2 form the group of rank 0 and issue theirs over that group, of
    which they are no members.  No collective of that step is matched, so
    the pass stops with all of them pending.  With batches of three it is
    worker 0 that addresses the group of rank 0 in the final step, as the
    only worker with a batch there, but it is never released from
    [dist.new_group]: the four all-reduces that would produce the count of
    the step stay pending. *)
Theorem remainder_step_participants :
  map (map shape0) (job 3 10 2) = [[2; 2]; [2; 1]; [2; 1]]
  /\ 10 mod 3 = 1
  /\ job_calls (job 3 10 2) 10
     = [Ok (repeat (AllReduce World) 4 ++ repeat (AllReduce World) 4);
        Ok (repeat (AllReduce World) 4
            ++ NewGroup [0] :: repeat (AllReduce (Sub [0])) 4);
        Ok (repeat (AllReduce World) 4
            ++ NewGroup [0] :: repeat (AllReduce (Sub [0])) 4 ++ [NewGroup [0]])]
  /\ run_job (pending_calls (job 3 10 2) 10)
     = Deadlock [repeat (AllReduce World) 4;
                 NewGroup [0] :: repeat (AllReduce (Sub [0])) 4;
                 NewGroup [0] :: repeat (AllReduce (Sub [0])) 4 ++ [NewGroup [0]]]
  /\ map (map shape0) (job 3 10 3) = [[3; 1]; [3]; [3]]
  /\ (exists pending,
        run_job (pending_calls (job 3 10 3) 10) = Deadlock pending
        /\ map all_reduces pending = [4; 0; 0]).
Proof.
  do 5 (split; [vm_compute; reflexivity|]).
  eexists. split; vm_compute; reflexivity.
Qed.

(** C1, evaluated on the code.  Three workers, ten samples, batches of
    three: worker 0 has a last batch of one sample and enters
    [dist.new_group], workers 1 and 2 have seen a full batch last, skip the
    call after the loop (line 307) and finish, so worker 0 is never
    released.  Two workers, three samples, batches of one: every batch is
    of one sample, but worker 1, whose rank equals the remainder, fails the
    test [rank > last_group_size] and enters [dist.new_group] once less than
    worker 0.  A worker without any batch raises at line 307. *)
Theorem validate_remainder_unmatched :
  job_calls (job 3 10 3) 10
  = [Ok (repeat (AllReduce World) 4
         ++ NewGroup [0] :: repeat (AllReduce (Sub [0])) 4);
     Ok (repeat (AllReduce World) 4);
     Ok (repeat (AllReduce World) 4)]
  /\ run_job (pending_calls (job 3 10 3) 10)
     = Deadlock [NewGroup [0] :: repeat (AllReduce (Sub [0])) 4; []; []]
  /\ pass_completes (job 3 10 3) 10 = false
  /\ map (fun c => match c with Ok calls => new_groups calls | Err _ => 0 end)
         (job_calls (job 2 3 1) 3) = [2; 1]
  /\ run_job (pending_calls (job 2 3 1) 3)
     = Deadlock [NewGroup [0] :: repeat (AllReduce (Sub [0])) 4; []]
  /\ validate_calls (job 3 2 3) 2 2 = Err UnboundLocalError.
Proof. vm_compute. repeat split; reflexivity. Qed.

(** * Further properties of the code *)

(** ** AverageMeter: an empty total weight *)

(** X3.  An update that brings the accumulated weight to zero raises: after
    updates that went through, [update(v, n)] with [n] the opposite of the
    count so far (in particular a first update of weight 0) ends in
    ZeroDivisionError. *)
Theorem meter_zero_weight_raises (us : list (Q * Q)) (m : AverageMeter.t) (v n : Q) :
  AverageMeter.updates AverageMeter.init us = Ok m ->
  (AverageMeter.count m + n == 0)%Q ->
  AverageMeter.update m v n = Err ZeroDivisionError
  /\ AverageMeter.updates AverageMeter.init (us ++ [(v, n)]) = Err ZeroDivisionError.
Proof.
  intros Hm Hz.
  assert (Hu : AverageMeter.update m v n = Err ZeroDivisionError).
  { unfold AverageMeter.update. now rewrite py_div_zero. }
  split; [exact Hu|]. rewrite updates_snoc, Hm. exact Hu.
Qed.

Lemma meter_zero_weight_raises_witness :
  AverageMeter.updates AverageMeter.init ([] ++ [(5, 0)])%Q = Err ZeroDivisionError.
Proof.
  apply (meter_zero_weight_raises [] AverageMeter.init 5 0); reflexivity.
Defined.

(** ** accuracy_sum: failures, batches and ranks *)

Lemma forallb_shape (classes : nat) (output : list (list Q)) :
  forallb (fun row => length row =? classes) output = true
  <-> Forall (fun row => length row = classes) output.
Proof.
  rewrite forallb_forall, List.Forall_forall. split; intros H row Hin.
  - apply Nat.eqb_eq. now apply H.
  - apply Nat.eqb_eq. now apply H.
Qed.

(** X4.  The scorer's failures, all of them: an empty tuple of ranks makes
    Python's [max] raise ValueError; otherwise torch raises exactly when a
    requested rank exceeds the number of classes, a row of scores has
    another length than the number of classes, or the target has neither
    as many labels as there are samples nor exactly one. *)
Theorem accuracy_sum_failure_modes (classes : nat) (output : list (list Q))
    (target : list nat) (K : list nat) :
  let well_formed :=
    Forall (fun k => k <= classes) K
    /\ Forall (fun row => length row = classes) output
    /\ (length target = length output \/ length target = 1) in
  (K = [] -> accuracy_sum classes output target K = Err ValueError)
  /\ (K <> [] -> well_formed ->
      exists res, accuracy_sum classes output target K = Ok res
                  /\ length res = length K)
  /\ (K <> [] -> ~ well_formed ->
      accuracy_sum classes output target K = Err RuntimeError).
Proof.
  intros well_formed. split; [intros ->; reflexivity|].
  assert (Hcases : K <> [] ->
            (well_formed /\ exists res, accuracy_sum classes output target K = Ok res
                                        /\ length res = length K)
            \/ (~ well_formed /\ accuracy_sum classes output target K = Err RuntimeError)).
  { intros Hne. destruct (py_max_Ok K Hne) as (maxk & Hmax & Hin & Hall).
    unfold accuracy_sum. rewrite Hmax. cbn [bind]. unfold topk.
    destruct (classes <? maxk) eqn:E1.
    { right. split; [|reflexivity]. intros (HK & _). apply Nat.ltb_lt in E1.
      rewrite List.Forall_forall in HK. specialize (HK maxk Hin). lia. }
    apply Nat.ltb_ge in E1.
    destruct (forallb (fun row => length row =? classes) output) eqn:E2.
    2:{ right. split; [|reflexivity]. intros (_ & Hshape & _).
        apply forallb_shape in Hshape. congruence. }
    cbn [bind]. unfold expand_target.
    assert (HK : Forall (fun k => k <= classes) K).
    { eapply List.Forall_impl; [|exact Hall]. intros k Hk. simpl in Hk. lia. }
    destruct (length target =? length output) eqn:E3.
    { left. split.
      - split; [exact HK|]. split; [now apply forallb_shape|].
        left. now apply Nat.eqb_eq.
      - cbn [bind]. eexists. split; [reflexivity|]. now rewrite length_map. }
    destruct (length target =? 1) eqn:E4.
    { left. split.
      - split; [exact HK|]. split; [now apply forallb_shape|].
        right. now apply Nat.eqb_eq.
      - cbn [bind]. eexists. split; [reflexivity|]. now rewrite length_map. }
    right. split; [|reflexivity]. intros (_ & _ & [H | H]).
    - apply Nat.eqb_neq in E3. contradiction.
    - apply Nat.eqb_neq in E4. contradiction. }
  split; intros Hne Hw; destruct (Hcases Hne) as [[Hw' H] | [Hw' H]];
    try contradiction; exact H.
Qed.

Lemma accuracy_sum_failure_modes_witness :
  accuracy_sum 3 [[1; 3; 2]; [5; 1]]%Q [1; 1] [1; 2] = Err RuntimeError.
Proof.
  destruct (accuracy_sum_failure_modes 3 [[1; 3; 2]; [5; 1]]%Q [1; 1] [1; 2])
    as (_ & _ & H).
  apply H; [discriminate|].
  intros (_ & Hshape & _).
  inversion Hshape as [|? ? _ Hrest]. inversion Hrest as [|? ? Hlen _].
  discriminate.
Defined.

(** *** Concatenating batches *)

Lemma combine_app_same {A B : Type} (l1 l2 : list A) (t1 t2 : list B) :
  length t1 = length l1 ->
  combine (l1 ++ l2) (t1 ++ t2) = combine l1 t1 ++ combine l2 t2.
Proof.
  revert t1. induction l1 as [|a l1 IH]; intros [|b t1] Hlen; simpl in *;
    try discriminate; [reflexivity|].
  f_equal. apply IH. lia.
Qed.

Lemma count_in_topk_app (k : nat) (o1 o2 : list (list Q)) (t1 t2 : list nat) :
  length t1 = length o1 ->
  count_in_topk k (o1 ++ o2) (t1 ++ t2)
  = count_in_topk k o1 t1 + count_in_topk k o2 t2.
Proof.
  intros Hlen. unfold count_in_topk.
  rewrite combine_app_same by exact Hlen.
  now rewrite List.filter_app, length_app.
Qed.

(** X5.  The counts are additive over batches: the scorer applied to two
    batches laid end to end returns, for each rank, the sum of what it
    returns for each batch; this is what lets local results be summed. *)
Theorem accuracy_sum_additive (classes : nat) (o1 o2 : list (list Q))
    (t1 t2 : list nat) (K : list nat) :
  K <> [] ->
  Forall (fun k => k <= classes) K ->
  Forall (fun row => length row = classes) o1 ->
  Forall (fun row => length row = classes) o2 ->
  length t1 = length o1 ->
  length t2 = length o2 ->
  exists r1 r2 r,
    accuracy_sum classes o1 t1 K = Ok r1
    /\ accuracy_sum classes o2 t2 K = Ok r2
    /\ accuracy_sum classes (o1 ++ o2) (t1 ++ t2) K = Ok r
    /\ forall i x, nth_error r i = Some x ->
         exists x1 x2, nth_error r1 i = Some x1 /\ nth_error r2 i = Some x2
                       /\ (x == x1 + x2)%Q.
Proof.
  intros Hne HK H1 H2 L1 L2.
  do 3 eexists.
  split; [now apply accuracy_sum_Ok|]. split; [now apply accuracy_sum_Ok|].
  split.
  - apply accuracy_sum_Ok; try assumption.
    + apply Forall_app. split; assumption.
    + rewrite !length_app. lia.
  - intros i x Hx. rewrite nth_error_map in Hx. rewrite !nth_error_map.
    destruct (nth_error K i) as [k|]; [|discriminate].
    simpl in Hx. injection Hx as <-. do 2 eexists.
    split; [reflexivity|]. split; [reflexivity|].
    rewrite (count_in_topk_app k o1 o2 t1 t2 L1).
    rewrite Nat2Z.inj_add, inject_Z_plus. lra.
Qed.

Lemma accuracy_sum_additive_witness :
  exists r,
    accuracy_sum 3 ([[1; 3; 2]] ++ [[5; 1; 0]; [0; 0; 9]])%Q ([1] ++ [1; 2]) [1; 2] = Ok r
    /\ length r = 2.
Proof.
  destruct (accuracy_sum_additive 3 [[1; 3; 2]]%Q [[5; 1; 0]; [0; 0; 9]]%Q [1] [1; 2] [1; 2])
    as (r1 & r2 & r & _ & _ & Hr & _).
  - discriminate.
  - repeat constructor.
  - repeat constructor.
  - repeat constructor.
  - reflexivity.
  - reflexivity.
  - exists r. split; [exact Hr|].
    vm_compute in Hr. injection Hr as <-. reflexivity.
Defined.

(** *** Labels and the full ranking *)

Lemma In_argsort_desc (row : list Q) (label : nat) :
  In label (argsort_desc row) <-> label < length row.
Proof.
  split; intros H.
  - apply (Permutation_in _ (argsort_desc_perm row)) in H. apply in_seq in H. lia.
  - apply (Permutation_in _ (Permutation_sym (argsort_desc_perm row))).
    apply in_seq. lia.
Qed.

Lemma In_firstn_In {A : Type} (k : nat) (l : list A) (x : A) :
  In x (firstn k l) -> In x l.
Proof.
  intros H. rewrite <- (firstn_skipn k l). apply in_or_app. now left.
Qed.

Lemma label_in_topk_valid (k : nat) (row : list Q) (label : nat) :
  label_in_topk k (row, label) = true -> label < length row.
Proof.
  unfold label_in_topk, topk_row. simpl. intros H.
  apply existsb_exists in H as (x & Hx & Hlx). apply Nat.eqb_eq in Hlx. subst x.
  apply In_argsort_desc. eapply In_firstn_In. exact Hx.
Qed.

Lemma label_in_topk_all (row : list Q) (label : nat) :
  label_in_topk (length row) (row, label) = (label <? length row).
Proof.
  destruct (label <? length row) eqn:E.
  - apply Nat.ltb_lt in E. unfold label_in_topk, topk_row. simpl.
    rewrite firstn_all2 by (rewrite argsort_desc_length; lia).
    apply existsb_exists. exists label. split; [|apply Nat.eqb_refl].
    now apply In_argsort_desc.
  - apply Nat.ltb_ge in E. apply not_true_is_false. intros H.
    apply label_in_topk_valid in H. lia.
Qed.

Lemma count_in_topk_all (classes : nat) (output : list (list Q)) (target : list nat) :
  Forall (fun row => length row = classes) output ->
  length target = length output ->
  count_in_topk classes output target
  = length (List.filter (fun label => label <? classes) target).
Proof.
  intros Hshape. revert target. unfold count_in_topk.
  induction Hshape as [|row output Hrow Hshape IH]; intros [|label target] Hlen;
    simpl in Hlen; try discriminate; [reflexivity|].
  cbn [combine List.filter]. rewrite <- Hrow at 1. rewrite label_in_topk_all, Hrow.
  destruct (label <? classes); cbn [length]; rewrite IH by lia; reflexivity.
Qed.

Lemma count_in_topk_invalid (k : nat) (output : list (list Q)) (target : list nat)
    (classes : nat) :
  Forall (fun row => length row = classes) output ->
  Forall (fun label => classes <= label) target ->
  count_in_topk k output target = 0.
Proof.
  intros Hshape. revert target. unfold count_in_topk.
  induction Hshape as [|row output Hrow Hshape IH]; intros [|label target] Hbad;
    try reflexivity.
  cbn [combine List.filter]. inversion Hbad as [|? ? Hl Hrest]. subst.
  destruct (label_in_topk k (row, label)) eqn:E.
  - apply label_in_topk_valid in E. lia.
  - now apply IH.
Qed.

(** X6.  Asking for as many ranks as there are classes counts every sample
    whose label is a class index at all; and a sample whose label is not a
    class index is counted for no rank. *)
Theorem accuracy_sum_full_rank (classes : nat) (output : list (list Q))
    (target : list nat) :
  Forall (fun row => length row = classes) output ->
  length target = length output ->
  accuracy_sum classes output target [classes]
  = Ok [(inject_Z (Z.of_nat (length (List.filter (fun label => label <? classes) target)))
         * 100)%Q]
  /\ forall K, K <> [] -> Forall (fun k => k <= classes) K ->
       Forall (fun label => classes <= label) target ->
       accuracy_sum classes output target K
       = Ok (map (fun _ => (inject_Z 0 * 100)%Q) K).
Proof.
  intros Hshape Hlen. split.
  - rewrite accuracy_sum_Ok; try assumption; [|discriminate|repeat constructor].
    cbn [map]. now rewrite count_in_topk_all.
  - intros K Hne HK Hbad. rewrite accuracy_sum_Ok by assumption.
    f_equal. apply map_ext. intros k.
    now rewrite (count_in_topk_invalid k output target classes).
Qed.

Lemma accuracy_sum_full_rank_witness :
  accuracy_sum 3 [[1; 3; 2]; [5; 1; 0]]%Q [7; 1] [3] = Ok [(inject_Z 1 * 100)%Q].
Proof.
  destruct (accuracy_sum_full_rank 3 [[1; 3; 2]; [5; 1; 0]]%Q [7; 1]) as [H _].
  - repeat constructor.
  - reflexivity.
  - exact H.
Defined.

(** *** What the ranking means *)

Section Descending.

Variable row : list Q.

Let ge_score (i j : nat) : Prop := (nth j row 0 <= nth i row 0)%Q.

Lemma insert_desc_sorted (i : nat) (sorted : list nat) :
  StronglySorted ge_score sorted -> StronglySorted ge_score (insert_desc row i sorted).
Proof.
  induction 1 as [|j rest Hs IH Hall]; simpl.
  - repeat constructor.
  - destruct (Qle_bool (nth i row 0%Q) (nth j row 0%Q)) eqn:E.
    + apply Qle_bool_iff in E. constructor; [exact IH|].
      eapply Permutation_Forall; [symmetry; apply insert_desc_perm|].
      constructor; [exact E | exact Hall].
    + assert (Hlt : (nth j row 0 < nth i row 0)%Q).
      { apply Qnot_le_lt. intros Hle. apply Qle_bool_iff in Hle. congruence. }
      constructor; [now constructor|].
      constructor; [unfold ge_score; lra|].
      eapply List.Forall_impl; [|exact Hall]. unfold ge_score. intros x Hx. lra.
Qed.

Lemma argsort_desc_sorted : StronglySorted ge_score (argsort_desc row).
Proof.
  unfold argsort_desc.
  assert (Hgen : forall ixs acc, StronglySorted ge_score acc ->
            StronglySorted ge_score
              (fold_left (fun sorted i => insert_desc row i sorted) ixs acc)).
  { induction ixs as [|i ixs IH]; intros acc Hacc; simpl; [exact Hacc|].
    apply IH. now apply insert_desc_sorted. }
  apply Hgen. constructor.
Qed.

Lemma sorted_after (l1 l2 : list nat) (x : nat) :
  StronglySorted ge_score (l1 ++ x :: l2) -> Forall (ge_score x) l2.
Proof.
  induction l1 as [|y l1 IH]; simpl; intros H.
  - now inversion H.
  - apply IH. now inversion H.
Qed.

Lemma sorted_before (l1 l2 : list nat) (x : nat) :
  StronglySorted ge_score (l1 ++ x :: l2) -> Forall (fun y => ge_score y x) l1.
Proof.
  induction l1 as [|y l1 IH]; simpl; intros H; [constructor|].
  inversion H as [|? ? Hs Hall]. subst. constructor.
  - rewrite List.Forall_forall in Hall. apply Hall. apply in_or_app. right. now left.
  - now apply IH.
Qed.

End Descending.

Lemma filter_length_perm {A : Type} (f : A -> bool) (l l' : list A) :
  Permutation l l' -> length (List.filter f l) = length (List.filter f l').
Proof.
  induction 1 as [| x l l' _ IH | x y l | l l' l'' _ IH1 _ IH2]; simpl.
  - reflexivity.
  - destruct (f x); simpl; now rewrite IH.
  - destruct (f x), (f y); reflexivity.
  - now rewrite IH1.
Qed.

Lemma filter_none {A : Type} (f : A -> bool) (l : list A) :
  Forall (fun x => f x = false) l -> List.filter f l = [].
Proof.
  induction 1 as [|x l Hx _ IH]; simpl; [reflexivity|]. now rewrite Hx.
Qed.

Lemma filter_all {A : Type} (f : A -> bool) (l : list A) :
  Forall (fun x => f x = true) l -> List.filter f l = l.
Proof.
  induction 1 as [|x l Hx _ IH]; simpl; [reflexivity|]. now rewrite Hx, IH.
Qed.

(** The position of a label in the ranking of its row. *)
Lemma ranking_split (row : list Q) (label : nat) :
  label < length row ->
  exists l1 l2, argsort_desc row = l1 ++ label :: l2 /\ ~ In label l1.
Proof.
  intros H. apply In_argsort_desc in H.
  destruct (in_split _ _ H) as (l1 & l2 & Heq).
  exists l1, l2. split; [exact Heq|].
  pose proof (argsort_desc_NoDup row) as Hnd. rewrite Heq in Hnd.
  apply NoDup_remove_2 in Hnd. intros Hin. apply Hnd. apply in_or_app. now left.
Qed.

Lemma label_in_topk_position (k : nat) (row : list Q) (label : nat) (l1 l2 : list nat) :
  argsort_desc row = l1 ++ label :: l2 -> ~ In label l1 ->
  label_in_topk k (row, label) = (length l1 <? k).
Proof.
  intros Heq Hnotin. unfold label_in_topk, topk_row. simpl. rewrite Heq.
  destruct (length l1 <? k) eqn:E.
  - apply Nat.ltb_lt in E. apply existsb_exists. exists label.
    split; [|apply Nat.eqb_refl].
    rewrite firstn_app. apply in_or_app. right.
    replace (k - length l1) with (S (k - length l1 - 1)) by lia. now left.
  - apply Nat.ltb_ge in E. apply not_true_is_false. intros H.
    apply existsb_exists in H as (x & Hx & Hlx). apply Nat.eqb_eq in Hlx. subst x.
    rewrite firstn_app in Hx. replace (k - length l1) with 0 in Hx by lia.
    rewrite firstn_O, app_nil_r in Hx. apply Hnotin. eapply In_firstn_In. exact Hx.
Qed.

(** X7.  What being counted means, whatever the order among equal scores:
    a sample is counted for rank [k] only if fewer than [k] classes score
    strictly higher than its label, and it is counted as soon as fewer than
    [k] other classes score at least as high. *)
Theorem label_in_topk_meaning (k : nat) (row : list Q) (label : nat) :
  (label_in_topk k (row, label) = true ->
   label < length row /\ higher_scored row label < k)
  /\ (label < length row -> rivals row label < k ->
      label_in_topk k (row, label) = true).
Proof.
  split.
  - intros Hin. pose proof (label_in_topk_valid k row label Hin) as Hvalid.
    split; [exact Hvalid|].
    destruct (ranking_split row label Hvalid) as (l1 & l2 & Heq & Hnotin).
    rewrite (label_in_topk_position k row label l1 l2 Heq Hnotin) in Hin.
    apply Nat.ltb_lt in Hin.
    unfold higher_scored.
    rewrite (filter_length_perm _ _ _ (Permutation_sym (argsort_desc_perm row))).
    pose proof (argsort_desc_sorted row) as Hs. rewrite Heq in Hs.
    rewrite Heq, List.filter_app, length_app. cbn [List.filter].
    assert (Hself : Qle_bool (nth label row 0%Q) (nth label row 0%Q) = true).
    { apply Qle_bool_iff. lra. }
    rewrite Hself. cbn [negb].
    rewrite (filter_none _ l2).
    + pose proof (List.filter_length_le
                    (fun j => negb (Qle_bool (nth j row 0%Q) (nth label row 0%Q))) l1).
      simpl. lia.
    + eapply List.Forall_impl; [|exact (sorted_after row l1 l2 label Hs)].
      intros x Hx. simpl in Hx. apply negb_false_iff. now apply Qle_bool_iff.
  - intros Hvalid Hriv.
    destruct (ranking_split row label Hvalid) as (l1 & l2 & Heq & Hnotin).
    rewrite (label_in_topk_position k row label l1 l2 Heq Hnotin).
    apply Nat.ltb_lt. eapply Nat.le_lt_trans; [|exact Hriv].
    unfold rivals.
    rewrite (filter_length_perm _ _ _ (Permutation_sym (argsort_desc_perm row))).
    pose proof (argsort_desc_sorted row) as Hs. rewrite Heq in Hs.
    rewrite Heq, List.filter_app, length_app.
    rewrite (filter_all _ l1); [lia|].
    pose proof (sorted_before row l1 l2 label Hs) as Hbefore.
    rewrite List.Forall_forall in *. intros x Hx.
    apply andb_true_iff. split.
    + apply negb_true_iff. apply Nat.eqb_neq. intros ->. contradiction.
    + apply Qle_bool_iff. exact (Hbefore x Hx).
Qed.

Lemma label_in_topk_meaning_witness :
  label_in_topk 2 ([5; 1; 5; 0]%Q, 2) = true.
Proof.
  destruct (label_in_topk_meaning 2 [5; 1; 5; 0]%Q 2) as [_ H].
  apply H; vm_compute; lia.
Defined.

(** *** Shapes of the target *)

(** X8.  A target of a single label is not rejected against a larger batch:
    [expand_as] broadcasts it, so every sample is scored against that one
    label, exactly as if the label had been repeated for every sample. *)
Theorem accuracy_sum_broadcast (classes : nat) (output : list (list Q))
    (label : nat) (K : list nat) :
  accuracy_sum classes output [label] K
  = accuracy_sum classes output (repeat label (length output)) K.
Proof.
  unfold accuracy_sum.
  destruct (py_max K) as [maxk|e]; [|reflexivity]. cbn [bind].
  destruct (topk maxk classes output) as [pred|e]; [|reflexivity]. cbn [bind].
  unfold expand_target. rewrite repeat_length, (Nat.eqb_refl (length output)).
  cbn [length hd].
  destruct (1 =? length output) eqn:E.
  - apply Nat.eqb_eq in E. rewrite <- E. reflexivity.
  - reflexivity.
Qed.

(** X9.  The result does not depend on the order of the samples in the
    batch: two well-shaped batches holding the same (scores, label) pairs
    in another order get the same counts. *)
Theorem accuracy_sum_sample_order (classes : nat) (output output' : list (list Q))
    (target target' : list nat) (K : list nat) :
  K <> [] ->
  Forall (fun k => k <= classes) K ->
  Forall (fun row => length row = classes) output ->
  length target = length output ->
  length target' = length output' ->
  Permutation (combine output target) (combine output' target') ->
  accuracy_sum classes output target K = accuracy_sum classes output' target' K.
Proof.
  intros Hne HK Hshape Hlen Hlen' Hperm.
  assert (Hshape' : Forall (fun row => length row = classes) output').
  { rewrite List.Forall_forall in *. intros row Hin.
    assert (Hex : exists t, In (row, t) (combine output' target')).
    { clear - Hin Hlen'. revert target' Hlen'.
      induction output' as [|r o IH]; intros [|t ts] Hl; simpl in *;
        try contradiction; try discriminate.
      destruct Hin as [-> | Hin]; [exists t; now left|].
      destruct (IH Hin ts) as [t' Ht']; [lia|]. exists t'. now right. }
    destruct Hex as [t Ht]. apply Hshape.
    eapply in_combine_l.
    eapply Permutation_in; [symmetry; exact Hperm | exact Ht]. }
  rewrite !accuracy_sum_Ok by assumption.
  f_equal. apply map_ext. intros k. unfold count_in_topk.
  now rewrite (filter_length_perm _ _ _ Hperm).
Qed.

Lemma accuracy_sum_sample_order_witness :
  accuracy_sum 3 [[1; 3; 2]; [5; 1; 0]]%Q [1; 2] [1; 2]
  = accuracy_sum 3 [[5; 1; 0]; [1; 3; 2]]%Q [2; 1] [1; 2].
Proof.
  apply accuracy_sum_sample_order.
  - discriminate.
  - repeat constructor.
  - repeat constructor.
  - reflexivity.
  - reflexivity.
  - apply perm_swap.
Defined.

(** ** validate: what it issues *)

Lemma all_reduces_app (c1 c2 : list call) :
  all_reduces (c1 ++ c2) = all_reduces c1 + all_reduces c2.
Proof. unfold all_reduces. now rewrite List.filter_app, length_app. Qed.

Lemma new_groups_app (c1 c2 : list call) :
  new_groups (c1 ++ c2) = new_groups c1 + new_groups c2.
Proof. unfold new_groups. now rewrite List.filter_app, length_app. Qed.

Lemma step_calls_counts (initialized : bool) (lgs : nat) (b : batch) :
  (initialized = false -> lgs = 0) ->
  all_reduces (step_calls initialized lgs b) = (if initialized then 4 else 0)
  /\ new_groups (step_calls initialized lgs b)
     = (if (shape0 b <=? 1) && negb (lgs =? 0) then 1 else 0).
Proof.
  intros Hinit. unfold step_calls.
  assert (E : (1 <? shape0 b) = negb (shape0 b <=? 1)).
  { destruct (shape0 b <=? 1) eqn:E1; simpl.
    - apply Nat.leb_le in E1. apply Nat.ltb_ge. lia.
    - apply Nat.leb_gt in E1. apply Nat.ltb_lt. lia. }
  rewrite E.
  destruct (shape0 b <=? 1), (lgs =? 0) eqn:E0; simpl;
    destruct initialized; simpl; auto.
  apply Nat.eqb_neq in E0. specialize (Hinit eq_refl). contradiction.
Qed.

Lemma loop_calls_counts (initialized : bool) (lgs : nat) (loader : list batch) :
  (initialized = false -> lgs = 0) ->
  all_reduces (concat (map (step_calls initialized lgs) loader))
  = (if initialized then 4 * length loader else 0)
  /\ new_groups (concat (map (step_calls initialized lgs) loader))
     = (if lgs =? 0 then 0 else single_sample_batches loader).
Proof.
  intros Hinit. induction loader as [|b loader [IHa IHn]].
  - simpl. destruct initialized, (lgs =? 0); auto.
  - cbn [map concat]. rewrite all_reduces_app, new_groups_app, IHa, IHn.
    destruct (step_calls_counts initialized lgs b Hinit) as [-> ->].
    unfold single_sample_batches. cbn [List.filter length].
    destruct initialized, (lgs =? 0), (shape0 b <=? 1); simpl; lia.
Qed.

(** X11.  The size of the protocol: an initialised worker issues exactly
    four all-reduces per batch (the count and the three sums), a worker
    without process group none; inside the loop a group is formed once per
    batch of a single sample when the remainder is not zero, and never when
    it is zero; after the loop at most one more group is formed. *)
Theorem validate_call_counts (d : dist) (dataset_len : nat)
    (val_loader : list batch) (v : validated) :
  count_positive d ->
  Forall (fun b => batch_ok b = true) val_loader ->
  validate d dataset_len val_loader = Ok v ->
  let world_size := if is_initialized d then get_world_size d else 1 in
  let last_group_size := dataset_len mod world_size in
  all_reduces (concat (v_steps v) ++ v_post v)
  = (if is_initialized d then 4 * length val_loader else 0)
  /\ new_groups (concat (v_steps v))
     = (if last_group_size =? 0 then 0 else single_sample_batches val_loader)
  /\ new_groups (v_post v) <= 1
  /\ (last_group_size = 0 -> new_groups (concat (v_steps v) ++ v_post v) = 0).
Proof.
  intros Hd Hall Hv world_size lgs.
  assert (Hnz : world_size <> 0).
  { intros Hz. unfold validate in Hv. fold world_size in Hv.
    rewrite Hz in Hv. discriminate. }
  assert (Hinit : is_initialized d = false -> lgs = 0).
  { intros Hi. unfold lgs, world_size. rewrite Hi. apply Nat.mod_1_r. }
  destruct (last val_loader) as [input|] eqn:Hlast.
  2:{ apply last_None in Hlast. subst val_loader. exfalso.
      unfold validate in Hv. fold world_size in Hv.
      destruct (world_size =? 0); simpl in Hv; discriminate. }
  destruct (validate_Ok d dataset_len val_loader input Hd Hall Hlast Hnz)
    as (v0 & Hv0 & Hsteps & Hpost & _).
  rewrite Hv in Hv0. injection Hv0 as <-.
  fold world_size in Hsteps, Hpost. fold lgs in Hsteps, Hpost.
  destruct (loop_calls_counts (is_initialized d) lgs val_loader Hinit) as [Ha Hn].
  rewrite all_reduces_app, new_groups_app, Hsteps, Ha, Hn, Hpost.
  destruct (lgs =? 0) eqn:E0.
  - apply Nat.eqb_eq in E0. rewrite E0. cbn [Nat.ltb Nat.leb].
    rewrite !andb_false_r. unfold all_reduces, new_groups. cbn [List.filter length].
    repeat split; lia.
  - apply Nat.eqb_neq in E0.
    destruct ((shape0 input =? 1) && _); unfold all_reduces, new_groups;
      cbn [List.filter length]; repeat split; lia.
Qed.

Lemma validate_call_counts_witness :
  exists v,
    validate (val_worker (job 3 10 3) 10 0) 10 (nth 0 (job 3 10 3) []) = Ok v
    /\ all_reduces (concat (v_steps v) ++ v_post v) = 8.
Proof.
  assert (Hv : exists v,
             validate (val_worker (job 3 10 3) 10 0) 10 (nth 0 (job 3 10 3) []) = Ok v).
  { eexists. vm_compute. reflexivity. }
  destruct Hv as [v Hv]. exists v. split; [exact Hv|].
  destruct (validate_call_counts (val_worker (job 3 10 3) 10 0) 10
              (nth 0 (job 3 10 3) []) v) as [Ha _].
  - apply worker_count_positive. simpl. lia.
  - repeat constructor.
  - exact Hv.
  - exact Ha.
Defined.

(** ** A single worker: what the reported accuracies can be *)

Lemma sum_Q_map_le {A : Type} (f g : A -> Q) (c : Q) (l : list A) :
  (forall a, In a l -> (f a <= c * g a)%Q) ->
  (sum_Q (map f l) <= c * sum_Q (map g l))%Q.
Proof.
  induction l as [|a l IH]; intros H.
  - simpl. lra.
  - change (f a + sum_Q (map f l) <= c * (g a + sum_Q (map g l)))%Q.
    pose proof (H a (or_introl eq_refl)).
    assert (sum_Q (map f l) <= c * sum_Q (map g l))%Q.
    { apply IH. intros a' Ha'. apply H. now right. }
    lra.
Qed.

Lemma sum_Q_counts (loader : list batch) :
  (sum_Q (map (fun b => s_count (batch_stats b)) loader)
   == inject_Z (Z.of_nat (samples loader)))%Q.
Proof.
  unfold samples. induction loader as [|b loader IH]; [reflexivity|].
  change (inject_Z (Z.of_nat (shape0 b))
          + sum_Q (map (fun b => s_count (batch_stats b)) loader)
          == inject_Z (Z.of_nat (shape0 b + list_sum (map shape0 loader))))%Q.
  rewrite IH, Nat2Z.inj_add, inject_Z_plus. reflexivity.
Qed.

Lemma count_in_topk_mono (k k' : nat) (output : list (list Q)) (target : list nat) :
  k <= k' -> count_in_topk k output target <= count_in_topk k' output target.
Proof.
  intros Hle. unfold count_in_topk.
  induction (combine output target) as [|s l IH]; [reflexivity|].
  cbn [List.filter].
  destruct (label_in_topk k s) eqn:E.
  - rewrite (label_in_topk_mono k k' s Hle E). simpl. lia.
  - destruct (label_in_topk k' s); simpl; lia.
Qed.

Lemma count_in_topk_le (k : nat) (output : list (list Q)) (target : list nat) :
  count_in_topk k output target <= length target.
Proof.
  unfold count_in_topk. etransitivity; [apply List.filter_length_le|].
  rewrite length_combine. lia.
Qed.

Lemma batch_stats_order (b : batch) :
  (0 <= s_prec1 (batch_stats b))%Q
  /\ (s_prec1 (batch_stats b) <= 1 * s_prec5 (batch_stats b))%Q
  /\ (s_prec5 (batch_stats b) <= 100 * s_count (batch_stats b))%Q.
Proof.
  simpl. split; [|split].
  - apply Qmult_le_0_compat; [|discriminate].
    change 0%Q with (inject_Z 0). rewrite <- Zle_Qle. lia.
  - rewrite Qmult_1_l. apply Qmult_le_compat_r; [|discriminate].
    rewrite <- Zle_Qle. apply inj_le. apply count_in_topk_mono. lia.
  - rewrite (Qmult_comm 100). apply Qmult_le_compat_r; [|discriminate].
    rewrite <- Zle_Qle. apply inj_le. apply count_in_topk_le.
Qed.

(** X12.  What a lone worker reports: the meters have weighed exactly the
    samples of the loader, and the returned top-1 average is a percentage
    that never exceeds the top-5 average. *)
Theorem single_worker_percentages (d : dist) (dataset_len : nat) (loader : list batch) :
  is_initialized d = false ->
  loader <> [] ->
  Forall (fun b => batch_ok b = true) loader ->
  exists v,
    validate d dataset_len loader = Ok v
    /\ (AverageMeter.count (top1 (v_meters v)) == inject_Z (Z.of_nat (samples loader)))%Q
    /\ (0 <= v_return v)%Q
    /\ (v_return v <= AverageMeter.avg (top5 (v_meters v)))%Q
    /\ (AverageMeter.avg (top5 (v_meters v)) <= 100)%Q.
Proof.
  intros Hd Hne Hall.
  unfold validate. rewrite Hd. cbn [Nat.eqb]. rewrite Nat.mod_1_r.
  rewrite (validate_loop_local d loader Hd Hall 0 meters_init meters_init_nonneg).
  cbn [bind fst snd].
  destruct (last loader) as [input|] eqn:Hlast.
  2:{ apply last_None in Hlast. contradiction. }
  eexists. split; [reflexivity|]. cbn [v_return v_meters].
  set (m := fold_left local_step loader meters_init).
  assert (H1 : (AverageMeter.avg (top1 m) == local_ratio Prec1 loader)%Q).
  { apply (local_meters_ratio Prec1); [discriminate | assumption | assumption]. }
  assert (H5 : (AverageMeter.avg (top5 m) == local_ratio Prec5 loader)%Q).
  { apply (local_meters_ratio Prec5); [discriminate | assumption | assumption]. }
  destruct (local_fold_sums Prec1 loader ltac:(discriminate) Hall meters_init)
    as [_ Hc].
  fold m in Hc. cbn [meter_of] in Hc.
  set (D := sum_Q (map (fun b => s_count (batch_stats b)) loader)) in *.
  assert (HD : (0 < D)%Q).
  { destruct loader as [|b loader]; [contradiction|].
    inversion Hall as [|? ? Hb Hrest]. subst.
    apply (sum_Q_pos _ (s_count (batch_stats b))).
    - apply List.Forall_forall. intros y Hy.
      apply in_map_iff in Hy as (b' & <- & _). simpl.
      change 0%Q with (inject_Z 0). rewrite <- Zle_Qle. lia.
    - now left.
    - now apply batch_count_pos. }
  set (S1 := sum_Q (map (fun b => select Prec1 (batch_stats b)) loader)).
  set (S5 := sum_Q (map (fun b => select Prec5 (batch_stats b)) loader)).
  assert (H01 : (0 <= S1)%Q).
  { apply sum_Q_nonneg. apply List.Forall_forall. intros y Hy.
    apply in_map_iff in Hy as (b & <- & _). apply batch_stats_order. }
  assert (H15 : (S1 <= 1 * S5)%Q).
  { apply sum_Q_map_le. intros b _. apply batch_stats_order. }
  assert (H5D : (S5 <= 100 * D)%Q).
  { apply sum_Q_map_le. intros b _. apply batch_stats_order. }
  split; [|split; [|split]].
  - rewrite Hc. simpl. rewrite Qplus_0_l. apply sum_Q_counts.
  - rewrite H1. unfold local_ratio. fold S1 D.
    apply Qle_shift_div_l; [exact HD | lra].
  - rewrite H1, H5. unfold local_ratio. fold S1 S5 D.
    apply Qle_shift_div_r; [exact HD|].
    assert (S5 / D * D == S5)%Q by (field; lra). lra.
  - rewrite H5. unfold local_ratio. fold S5 D.
    apply Qle_shift_div_r; [exact HD | lra].
Qed.

Lemma single_worker_percentages_witness :
  exists v,
    validate (val_worker (job 1 6 4) 6 0) 6 (nth 0 (job 1 6 4) []) = Ok v
    /\ (0 <= v_return v)%Q
    /\ (v_return v <= AverageMeter.avg (top5 (v_meters v)))%Q.
Proof.
  destruct (single_worker_percentages (val_worker (job 1 6 4) 6 0) 6
              (nth 0 (job 1 6 4) [])) as (v & Hv & _ & H0 & H15 & _).
  - reflexivity.
  - discriminate.
  - repeat constructor.
  - exists v. split; [exact Hv|]. split; assumption.
Defined.

(** ** The evaluation pass when the dataset divides evenly *)

Lemma nth_repeat_lt {A : Type} (a d : A) (n p : nat) :
  p < n -> nth p (repeat a n) d = a.
Proof.
  revert p. induction n as [|n IH]; intros [|p] H; simpl; try lia; [reflexivity|].
  apply IH. lia.
Qed.

Lemma advance_all (st : list (list call)) :
  advance (seq 0 (length st)) st = map (@tl call) st.
Proof.
  unfold advance. apply list_eq. intros i.
  rewrite list_lookup_imap.
  destruct (st !! i) as [pending|] eqn:E.
  - rewrite (lookup_map _ _ _ _ E). simpl.
    assert (Hi : i < length st) by (eapply lookup_lt_Some; exact E).
    replace (existsb (Nat.eqb i) (seq 0 (length st))) with true; [reflexivity|].
    symmetry. apply existsb_exists. exists i. split; [|apply Nat.eqb_refl].
    apply in_seq. lia.
  - simpl. symmetry. apply lookup_ge_None_2. rewrite length_map.
    now apply lookup_ge_None_1.
Qed.

(** Workers that all hold the same sequence of all-reduces over the default
    group are released together, call after call. *)
Lemma run_uniform (n world_size fuel : nat) :
  0 < world_size -> n < fuel ->
  run fuel (repeat (repeat (AllReduce World) n) world_size) = Completed.
Proof.
  intros HW. revert fuel. induction n as [|n IH]; intros fuel Hfuel.
  - destruct fuel as [|fuel]; [lia|]. simpl.
    replace (forallb _ (repeat [] world_size)) with true; [reflexivity|].
    symmetry. apply forallb_forall. intros x Hx. apply repeat_spec in Hx. now subst.
  - destruct fuel as [|fuel]; [lia|].
    set (t := repeat (AllReduce World) (S n)).
    set (st := repeat t world_size).
    assert (Hlen : length st = world_size) by apply repeat_length.
    cbn [run].
    replace (forallb _ st) with false.
    2:{ symmetry. apply not_true_is_false. intros H.
        rewrite forallb_forall in H.
        specialize (H t). unfold st in H.
        destruct world_size as [|w]; [lia|]. simpl in H.
        specialize (H (or_introl eq_refl)). discriminate. }
    rewrite Hlen.
    assert (Hrel : released st 0 = Some (seq 0 world_size)).
    { unfold released. unfold st at 1. rewrite (nth_repeat_lt t [] _ 0 HW).
      cbn [t repeat participants]. rewrite Hlen.
      replace (forallb _ (seq 0 world_size)) with true; [reflexivity|].
      symmetry. apply forallb_forall. intros p Hp. apply in_seq in Hp.
      unfold st. rewrite nth_repeat_lt by lia. reflexivity. }
    destruct world_size as [|w]; [lia|].
    cbn [seq first_released]. rewrite Hrel.
    change (0 :: seq 1 w) with (seq 0 (S w)). rewrite <- Hlen at 1.
    rewrite advance_all. unfold st. rewrite map_repeat. simpl.
    apply IH. lia.
Qed.

Lemma concat_repeat_calls (c : call) (k : nat) {A : Type} (l : list A) :
  concat (map (fun _ => repeat c k) l) = repeat c (k * length l).
Proof.
  induction l as [|a l IH]; simpl.
  - now rewrite Nat.mul_0_r.
  - rewrite IH, <- repeat_app. f_equal. lia.
Qed.

Lemma map_constant {A B : Type} (f : A -> B) (b : B) (l : list A) :
  (forall a, In a l -> f a = b) -> map f l = repeat b (length l).
Proof.
  induction l as [|a l IH]; intros H; simpl; [reflexivity|].
  rewrite (H a) by now left. f_equal. apply IH. intros a' Ha'. apply H. now right.
Qed.

Lemma even_worker_calls (loaders : list (list batch)) (dataset_len q r : nat) :
  dataset_len mod length loaders = 0 ->
  0 < q -> r < length loaders ->
  length (nth r loaders []) = q ->
  Forall (fun b => batch_ok b = true) (nth r loaders []) ->
  validate_calls loaders dataset_len r
  = Ok (repeat (AllReduce World) (if 1 <? length loaders then 4 * q else 0)).
Proof.
  intros Hmod Hq Hr Hlen Hall.
  destruct (last (nth r loaders [])) as [input|] eqn:Hlast.
  2:{ apply last_None in Hlast. rewrite Hlast in Hlen. simpl in Hlen. lia. }
  destruct (validate_Ok (val_worker loaders dataset_len r) dataset_len
              (nth r loaders []) input) as (v & Hv & Hsteps & Hpost & _).
  - now apply worker_count_positive.
  - exact Hall.
  - exact Hlast.
  - simpl. destruct (1 <? length loaders); lia.
  - unfold validate_calls. rewrite Hv. cbn [bind]. f_equal.
    cbn [is_initialized get_world_size get_rank val_worker worker] in Hsteps, Hpost.
    assert (Hlgs : dataset_len mod (if 1 <? length loaders then length loaders else 1) = 0).
    { destruct (1 <? length loaders); [exact Hmod | apply Nat.mod_1_r]. }
    rewrite Hlgs in Hsteps, Hpost.
    rewrite Hpost, !andb_false_r, app_nil_r, Hsteps.
    unfold step_calls. cbn [Nat.eqb]. 
    rewrite (map_ext _ (fun _ => if 1 <? length loaders
                                 then repeat (AllReduce World) 4 else []))
      by (intros b; now rewrite orb_true_r).
    destruct (1 <? length loaders).
    + rewrite concat_repeat_calls, Hlen. reflexivity.
    + apply concat_no_calls.
Qed.

(** X13.  When the dataset size is a multiple of the world size and every
    worker's loader yields the same positive number of batches, the
    evaluation pass completes: no worker raises, no group is formed, and
    every all-reduce is matched by all workers. *)
Theorem even_pass_completes (loaders : list (list batch)) (dataset_len q : nat) :
  loaders <> [] ->
  dataset_len mod length loaders = 0 ->
  0 < q ->
  (forall r, r < length loaders ->
     length (nth r loaders []) = q
     /\ Forall (fun b => batch_ok b = true) (nth r loaders [])) ->
  pass_completes loaders dataset_len = true
  /\ forall r, r < length loaders ->
       exists calls, validate_calls loaders dataset_len r = Ok calls
                     /\ new_groups calls = 0.
Proof.
  intros Hne Hmod Hq Hall.
  assert (HW : 0 < length loaders) by (destruct loaders; [contradiction | simpl; lia]).
  set (t := repeat (AllReduce World) (if 1 <? length loaders then 4 * q else 0)).
  assert (Hcalls : forall r, r < length loaders ->
            validate_calls loaders dataset_len r = Ok t).
  { intros r Hr. destruct (Hall r Hr) as [Hlen Hok].
    now apply (even_worker_calls loaders dataset_len q r). }
  assert (Hjob : job_calls loaders dataset_len = repeat (Ok t) (length loaders)).
  { unfold job_calls. rewrite (map_constant _ (Ok t)).
    - now rewrite length_seq.
    - intros r Hin. apply in_seq in Hin. apply Hcalls. lia. }
  split.
  - unfold pass_completes, pending_calls. rewrite Hjob. apply andb_true_iff. split.
    + apply forallb_forall. intros c Hc. apply repeat_spec in Hc. now subst.
    + rewrite map_repeat. unfold run_job, t. rewrite run_uniform; [reflexivity | exact HW |].
      destruct (length loaders) as [|w]; [lia|]. simpl.
      rewrite length_app, repeat_length. lia.
  - intros r Hr. exists t. split; [now apply Hcalls|].
    unfold new_groups, t. rewrite filter_none; [reflexivity|].
    apply List.Forall_forall. intros c Hc. apply repeat_spec in Hc. now subst.
Qed.

Lemma even_pass_completes_witness : pass_completes (job 3 12 2) 12 = true.
Proof.
  destruct (even_pass_completes (job 3 12 2) 12 2) as [H _].
  - discriminate.
  - reflexivity.
  - lia.
  - intros r Hr. simpl in Hr.
    destruct r as [|[|[|r]]]; [| | |lia]; (split; [reflexivity | repeat constructor]).
  - exact H.
Defined.

(** ** Workers agree *)

Lemma even_step_values (choose : batch -> group) (loaders : list (list batch))
    (r i : nat) (b : batch) (m : meters) (ar : option reducer) :
  (forall r', r' < length loaders ->
     exists b', nth r' loaders [] !! i = Some b' /\ batch_ok b' = true
                /\ choose b' = World) ->
  r < length loaders ->
  nth r loaders [] !! i = Some b ->
  meters_nonneg m ->
  ar = (if 1 <? length loaders
        then Some (partial World (mock_all_reduce choose loaders r i World))
        else None) ->
  exists m',
    process b ar m
    = Ok (m', if 1 <? length loaders then repeat (AllReduce World) 4 else [])
    /\ forall sl, sl <> Count ->
         (AverageMeter.val (meter_of sl m')
          == central_sum loaders i sl / central_sum loaders i Count)%Q.
Proof.
  intros Hall Hr Hb Hm ->.
  destruct (Hall r Hr) as (b0 & Hb0 & Hok & _). rewrite Hb in Hb0. injection Hb0 as <-.
  assert (Hred : forall sl,
            ((if 1 <? length loaders
              then mock_all_reduce choose loaders r i World sl (select sl (batch_stats b))
              else select sl (batch_stats b)) == central_sum loaders i sl)%Q).
  { intros sl. apply even_step_reduced; try assumption.
    intros r' Hr'. destruct (Hall r' Hr') as (b' & Hb' & _ & Hg). eauto. }
  pose proof (worker_count_positive choose loaders r Hr) as Hd.
  destruct (1 <? length loaders) eqn:E.
  - edestruct (process_Ok b (Some (partial World
                 (mock_all_reduce choose loaders r i World))) m) as [Hp _];
      try eassumption.
    { intros rd [= <-]. simpl. apply (Hd i World). now apply batch_count_pos. }
    eexists. split; [exact Hp|].
    intros sl Hsl. rewrite <- (Hred sl), <- (Hred Count).
    destruct sl; try congruence; reflexivity.
  - edestruct (process_Ok b None m) as [Hp _]; try eassumption.
    { intros rd [=]. }
    eexists. split; [exact Hp|].
    intros sl Hsl. rewrite <- (Hred sl), <- (Hred Count).
    destruct sl; try congruence; reflexivity.
Qed.

(** X14.  In a step of an evaluation pass for which every worker has a
    batch and addresses the default group, any two workers issue the same
    calls and record the same current loss, top-1 and top-5 values, however
    different their own batches are. *)
Theorem workers_agree (loaders : list (list batch)) (dataset_len : nat)
    (i r1 r2 : nat) (b1 b2 : batch) (m1 m2 : meters) :
  (forall r', r' < length loaders ->
     exists b', nth r' loaders [] !! i = Some b' /\ batch_ok b' = true
                /\ step_group (dataset_len mod length loaders) b' = World) ->
  r1 < length loaders -> r2 < length loaders ->
  nth r1 loaders [] !! i = Some b1 ->
  nth r2 loaders [] !! i = Some b2 ->
  meters_nonneg m1 -> meters_nonneg m2 ->
  exists m1' m2' calls,
    validate_step (val_worker loaders dataset_len r1)
      (dataset_len mod length loaders) i b1 m1 = Ok (m1', calls)
    /\ validate_step (val_worker loaders dataset_len r2)
         (dataset_len mod length loaders) i b2 m2 = Ok (m2', calls)
    /\ forall sl, sl <> Count ->
         (AverageMeter.val (meter_of sl m1') == AverageMeter.val (meter_of sl m2'))%Q.
Proof.
  intros Hall Hr1 Hr2 Hb1 Hb2 Hm1 Hm2.
  set (lgs := dataset_len mod length loaders) in *.
  assert (Hcond : forall r b, r < length loaders -> nth r loaders [] !! i = Some b ->
            (1 <? shape0 b) || (lgs =? 0) = true).
  { intros r b Hr Hb. destruct (Hall r Hr) as (b' & Hb' & _ & Hg).
    rewrite Hb in Hb'. injection Hb' as <-. unfold step_group in Hg.
    destruct ((1 <? shape0 b) || (lgs =? 0)); [reflexivity | discriminate]. }
  destruct (even_step_values (step_group lgs) loaders r1 i b1 m1 _ Hall Hr1 Hb1 Hm1 eq_refl)
    as (m1' & Hp1 & Hv1).
  destruct (even_step_values (step_group lgs) loaders r2 i b2 m2 _ Hall Hr2 Hb2 Hm2 eq_refl)
    as (m2' & Hp2 & Hv2).
  exists m1', m2', (if 1 <? length loaders then repeat (AllReduce World) 4 else []).
  split; [|split].
  - rewrite validate_step_world by (apply (Hcond r1); assumption). exact Hp1.
  - rewrite validate_step_world by (apply (Hcond r2); assumption). exact Hp2.
  - intros sl Hsl. rewrite (Hv1 sl Hsl), (Hv2 sl Hsl). reflexivity.
Qed.

Lemma workers_agree_witness :
  exists m1' m2' calls,
    validate_step (val_worker (job 2 7 4) 7 0) 1 0 (batch_of 4) meters_init
    = Ok (m1', calls)
    /\ validate_step (val_worker (job 2 7 4) 7 1) 1 0 (batch_of 3) meters_init
       = Ok (m2', calls)
    /\ (AverageMeter.val (losses m1') == AverageMeter.val (losses m2'))%Q.
Proof.
  destruct (workers_agree (job 2 7 4) 7 0 0 1 (batch_of 4) (batch_of 3)
              meters_init meters_init)
    as (m1' & m2' & calls & H1 & H2 & Hv).
  - intros r' Hr'. simpl in Hr'.
    destruct r' as [|[|r']]; [| |lia]; eexists; repeat split; reflexivity.
  - simpl. lia.
  - simpl. lia.
  - reflexivity.
  - reflexivity.
  - apply meters_init_nonneg.
  - apply meters_init_nonneg.
  - exists m1', m2', calls. split; [exact H1|]. split; [exact H2|].
    apply (Hv Loss). discriminate.
Defined.

(** ** main: epochs, checkpoints and resuming *)

Section Epochs.

Variable blob : Type.
Variable init_weights : blob -> blob.
Variable train_epoch : nat -> blob * blob -> blob * blob.
Variable validate_epoch : nat -> blob -> Q.
Variable network_arch : string.

Lemma save_checkpoint_files (state : checkpoint blob) (is_best : bool)
    (fs : gmap string (checkpoint blob)) :
  save_checkpoint state is_best "checkpoint.pth.tar" fs
  = Ok (if is_best
        then <["model_best.pth.tar" := state]> (<["checkpoint.pth.tar" := state]> fs)
        else <["checkpoint.pth.tar" := state]> fs).
Proof.
  unfold save_checkpoint. destruct is_best; [|reflexivity].
  simpl. now rewrite lookup_insert_eq.
Qed.

Lemma py_max2_bounds (a b : Q) :
  (b <= py_max2 a b)%Q /\ (a <= py_max2 a b)%Q
  /\ (Qgt_bool a b = false -> (py_max2 a b == b)%Q)
  /\ (Qgt_bool a b = true -> py_max2 a b = a).
Proof.
  unfold py_max2. destruct (Qgt_bool b a) eqn:E.
  - apply Qgt_bool_iff in E. repeat split; try lra.
    intros H. apply Qgt_bool_iff in H. lra.
  - assert (b <= a)%Q.
    { apply Qnot_lt_le. intros H. apply Qgt_bool_iff in H. congruence. }
    repeat split; try lra.
    intros H'. assert (a <= b)%Q; [|lra].
    apply Qnot_lt_le. intros H''. apply Qgt_bool_iff in H''. congruence.
Qed.

(** One iteration of the epoch loop, spelled out. *)
Lemma epoch_body_Ok (e : nat) (p : program blob) :
  exists p',
    epoch_body train_epoch validate_epoch network_arch e p = Ok p'
    /\ args p' = args p
    /\ log p' = log p
    /\ (model p', optim p') = train_epoch e (model p, optim p)
    /\ (g_best_prec1 p <= g_best_prec1 p')%Q
    /\ (validate_epoch e (model p') <= g_best_prec1 p')%Q
    /\ files p' !! "checkpoint.pth.tar" = Some (checkpoint_of network_arch (e + 1) p')
    /\ (best_copy_consistent p -> best_copy_consistent p')
    /\ (forall name, name <> "checkpoint.pth.tar" -> name <> "model_best.pth.tar" ->
          files p' !! name = files p !! name).
Proof.
  unfold epoch_body. rewrite save_checkpoint_files. cbn [bind].
  set (trained := train_epoch e (model p, optim p)).
  set (prec1 := validate_epoch e (fst trained)).
  destruct (py_max2_bounds prec1 (g_best_prec1 p)) as (Hb & Ha & Hno & Hyes).
  eexists. split; [reflexivity|]. cbn [args log model optim g_best_prec1 files].
  split; [reflexivity|]. split; [reflexivity|].
  split; [now destruct trained|]. split; [exact Hb|]. split; [exact Ha|].
  unfold checkpoint_of. cbn [model optim g_best_prec1].
  split; [|split].
  - destruct (Qgt_bool prec1 (g_best_prec1 p)).
    + rewrite lookup_insert_ne by discriminate. apply lookup_insert_eq.
    + apply lookup_insert_eq.
  - intros Hcons c. unfold best_copy_consistent in Hcons. cbn [files g_best_prec1].
    destruct (Qgt_bool prec1 (g_best_prec1 p)) eqn:E.
    + rewrite lookup_insert_eq. intros [= <-]. simpl. reflexivity.
    + rewrite lookup_insert_ne by discriminate. intros Hc.
      rewrite (Hcons c Hc). symmetry. now apply Hno.
  - intros name H1 H2.
    destruct (Qgt_bool prec1 (g_best_prec1 p));
      rewrite ?(lookup_insert_ne _ "model_best.pth.tar") by congruence;
      now rewrite lookup_insert_ne by congruence.
Qed.

Lemma epoch_loop_snoc (es : list nat) (e : nat) (p : program blob) :
  epoch_loop train_epoch validate_epoch network_arch (es ++ [e]) p
  = let! p' := epoch_loop train_epoch validate_epoch network_arch es p in
    epoch_body train_epoch validate_epoch network_arch e p'.
Proof.
  revert p. induction es as [|e0 es IH]; intros p; simpl.
  - now destruct (epoch_body train_epoch validate_epoch network_arch e p).
  - destruct (epoch_body train_epoch validate_epoch network_arch e0 p); simpl;
      [apply IH | reflexivity].
Qed.

Lemma epoch_loop_Ok (first n : nat) (p : program blob) :
  exists p',
    epoch_loop train_epoch validate_epoch network_arch (seq first n) p = Ok p'
    /\ args p' = args p
    /\ (g_best_prec1 p <= g_best_prec1 p')%Q
    /\ (best_copy_consistent p -> best_copy_consistent p')
    /\ (forall name, name <> "checkpoint.pth.tar" -> name <> "model_best.pth.tar" ->
          files p' !! name = files p !! name)
    /\ (0 < n ->
        files p' !! "checkpoint.pth.tar"
        = Some (checkpoint_of network_arch (first + n) p')).
Proof.
  induction n as [|n IH].
  - exists p. simpl. repeat split; try lra; auto. lia.
  - destruct IH as (p1 & H1 & Ha1 & Hb1 & Hc1 & Hf1 & _).
    destruct (epoch_body_Ok (first + n) p1)
      as (p' & Hp' & Ha & _ & _ & Hb & _ & Hck & Hc & Hf).
    exists p'. rewrite seq_S, epoch_loop_snoc, H1. cbn [bind].
    split; [exact Hp'|]. split; [congruence|]. split; [lra|].
    split; [auto|]. split.
    + intros name Hn1 Hn2. rewrite (Hf name Hn1 Hn2). now apply Hf1.
    + intros _. rewrite Hck. f_equal. f_equal. lia.
Qed.

(** X15.  The epoch loop never fails on a checkpoint and keeps the books:
    the best score never decreases, a best copy that agreed with the best
    score still agrees with it afterwards, files other than the two the
    program writes are untouched, and after at least one epoch the
    checkpoint file holds the state the program ends with, marked with the
    epoch that would come next. *)
Theorem epoch_loop_bookkeeping (first n : nat) (p : program blob) :
  exists p',
    epoch_loop train_epoch validate_epoch network_arch (seq first n) p = Ok p'
    /\ args p' = args p
    /\ (g_best_prec1 p <= g_best_prec1 p')%Q
    /\ (best_copy_consistent p -> best_copy_consistent p')
    /\ (forall name, name <> "checkpoint.pth.tar" -> name <> "model_best.pth.tar" ->
          files p' !! name = files p !! name)
    /\ (0 < n ->
        files p' !! "checkpoint.pth.tar"
        = Some (checkpoint_of network_arch (first + n) p')).
Proof. apply epoch_loop_Ok. Qed.

(** X16.  Saving and resuming compose to the identity on what a checkpoint
    holds: a program started with [--resume checkpoint.pth.tar] on the
    files an epoch has left takes over that epoch's model, optimizer state
    and best score, and its first epoch is the one after it; the weights are
    not initialised again. *)
Theorem resume_restores_epoch (e : nat) (p : program blob)
    (created_model created_optimizer : blob) (argv_evaluate : bool) :
  exists p',
    epoch_body train_epoch validate_epoch network_arch e p = Ok p'
    /\ let resumed :=
         resume_or_init init_weights
           {| args := parse_args "checkpoint.pth.tar" argv_evaluate;
              g_best_prec1 := 0%Q; model := created_model;
              optim := created_optimizer; files := files p'; log := [] |} in
       model resumed = model p'
       /\ optim resumed = optim p'
       /\ g_best_prec1 resumed = g_best_prec1 p'
       /\ start_epoch (args resumed) = Some (e + 1)
       /\ files resumed = files p'.
Proof.
  destruct (epoch_body_Ok e p) as (p' & Hp' & _ & _ & _ & _ & _ & Hck & _).
  exists p'. split; [exact Hp'|].
  unfold resume_or_init. cbn [args parse_args resume String.eqb negb files].
  rewrite Hck. simpl. repeat split; reflexivity.
Qed.

(** X17.  A finished run is not trained again: resuming from the checkpoint
    of a run that went through all its epochs, with the same number of
    epochs, restores its final state and runs no epoch, so no file is
    written. *)
Theorem resume_after_last_epoch (epochs : nat)
    (created_model created_optimizer other_model other_optimizer : blob)
    (fs : gmap string (checkpoint blob)) :
  0 < epochs ->
  exists p p',
    main init_weights train_epoch validate_epoch network_arch epochs
         "" false created_model created_optimizer fs = Ok p
    /\ main init_weights train_epoch validate_epoch network_arch epochs
            "checkpoint.pth.tar" false other_model other_optimizer (files p) = Ok p'
    /\ files p' = files p
    /\ model p' = model p
    /\ optim p' = optim p
    /\ g_best_prec1 p' = g_best_prec1 p
    /\ start_epoch (args p') = Some epochs.
Proof.
  intros Hpos.
  assert (Hrun : exists p,
             main init_weights train_epoch validate_epoch network_arch epochs
                  "" false created_model created_optimizer fs = Ok p
             /\ files p !! "checkpoint.pth.tar"
                = Some (checkpoint_of network_arch epochs p)).
  { unfold main, resume_or_init.
    cbn [args parse_args resume evaluate start_epoch String.eqb negb].
    rewrite Nat.sub_0_r.
    match goal with
    | |- context [epoch_loop _ _ _ (seq 0 epochs) ?P] =>
        destruct (epoch_loop_Ok 0 epochs P) as (p & Hp & _ & _ & _ & _ & Hck)
    end.
    exists p. split; [exact Hp | exact (Hck Hpos)]. }
  destruct Hrun as (p & Hp & Hck).
  exists p. eexists. split; [exact Hp|].
  unfold main, resume_or_init.
  cbn [args parse_args resume evaluate start_epoch String.eqb negb files].
  rewrite Hck. cbn [args evaluate start_epoch epoch checkpoint_of].
  rewrite Nat.sub_diag. simpl. repeat split; reflexivity.
Qed.

End Epochs.

Lemma resume_after_last_epoch_witness :
  exists p p' : program nat,
    main S (fun e s => (fst s + e, snd s)) (fun e s => inject_Z (Z.of_nat s))
         "resnet" 2 "" false 0 0 ∅ = Ok p
    /\ main S (fun e s => (fst s + e, snd s)) (fun e s => inject_Z (Z.of_nat s))
            "resnet" 2 "checkpoint.pth.tar" false 7 7 (files p) = Ok p'
    /\ model p' = model p.
Proof.
  destruct (resume_after_last_epoch nat S (fun e s => (fst s + e, snd s))
              (fun e s => inject_Z (Z.of_nat s)) "resnet" 2 0 0 7 7 ∅)
    as (p & p' & H1 & H2 & _ & Hm & _).
  - lia.
  - exists p, p'. split; [exact H1|]. split; [exact H2 | exact Hm].
Defined.


(** ** init_weights *)

Section InitWeightsFacts.

Variable nn_init_defines : string -> bool.
Variable gain_relu : Q.
Variable gain_leaky_relu : Q -> Q.
Variable conf : network_conf.

Let init_module' := init_module nn_init_defines gain_relu gain_leaky_relu conf.
Let init_weights' := init_weights nn_init_defines gain_relu gain_leaky_relu conf.

Lemma init_module_cases (m : module) :
  (rejected nn_init_defines conf m = false /\
   exists m', init_module' m = Ok m' /\ initialised m m')
  \/ (rejected nn_init_defines conf m = true /\ init_module' m = Err AttributeError).
Proof.
  unfold init_module', init_module, rejected, initialised, init_conv, fill.
  destruct m as [name cls weight bias]. cbn [m_class m_weight m_bias m_name].
  destruct cls.
  - destruct (nn_init_defines (String.append (weight_init conf) "_"));
      [|right; split; reflexivity].
    cbn [negb orb].
    destruct (String.prefix "xavier" (weight_init conf)
              || String.eqb (weight_init conf) "orthogonal") eqn:E1.
    + cbn [orb andb]. destruct weight as [w|]; [|right; split; reflexivity].
      left. split; [reflexivity|].
      destruct bias as [b|]; cbn [bind]; eexists; (split; [reflexivity|]);
        cbn [m_name m_class m_bias]; repeat split; congruence.
    + cbn [orb]. destruct (String.prefix "kaiming" (weight_init conf)).
      * cbn [andb]. destruct weight as [w|].
        -- left. split; [reflexivity|].
           destruct (String.eqb (activation conf) "relu"
                     || String.eqb (activation conf) "elu");
             destruct bias as [b|]; cbn [bind]; eexists; (split; [reflexivity|]);
             cbn [m_name m_class m_bias]; repeat split; congruence.
        -- right. split; [reflexivity|].
           now destruct (String.eqb (activation conf) "relu"
                         || String.eqb (activation conf) "elu").
      * cbn [andb]. left. split; [reflexivity|].
        destruct bias as [b|]; cbn [bind]; eexists; (split; [reflexivity|]);
          cbn [m_name m_class m_bias]; repeat split; congruence.
  - destruct weight as [w|], bias as [b|]; cbn [bind];
      try (right; split; reflexivity).
    left. split; [reflexivity|]. eexists. split; [reflexivity|]. repeat split.
  - destruct weight as [w|], bias as [b|]; cbn [bind];
      try (right; split; reflexivity).
    left. split; [reflexivity|]. eexists. split; [reflexivity|]. repeat split.
  - destruct weight as [w|], bias as [b|]; cbn [bind];
      try (right; split; reflexivity).
    left. split; [reflexivity|]. eexists. split; [reflexivity|]. repeat split.
  - left. split; [reflexivity|]. eexists. split; [reflexivity|]. repeat split.
Qed.

(** X18.  What [init_weights] guarantees whatever the configuration says:
    when it returns, the modules are the same in number, name and class,
    every bias that exists is zero, every normalisation layer has weight
    one, every linear layer is drawn by [xavier_uniform_] with gain 0.1, a
    convolution without bias still has none, and modules of other classes
    are untouched. *)
Theorem init_weights_leaves (model model' : list module) :
  init_weights' model = Ok model' ->
  Forall2 initialised model model'.
Proof.
  revert model'. induction model as [|m model IH]; intros model' H.
  - simpl in H. injection H as <-. constructor.
  - unfold init_weights' in H. simpl in H.
    apply bind_Ok in H as (m1 & Hm & H).
    apply bind_Ok in H as (rest & Hrest & H). injection H as <-.
    constructor; [|now apply IH].
    destruct (init_module_cases m) as [(_ & m2 & Hm2 & Hi) | (_ & He)].
    + unfold init_module' in Hm2. rewrite Hm in Hm2. now injection Hm2 as <-.
    + unfold init_module' in He. rewrite Hm in He. discriminate.
Qed.

(** X19.  [init_weights] fails exactly on a model with a module its loop
    body rejects, and then with AttributeError: a convolution when the
    configured initialiser is not a name of [torch.nn.init], or a
    normalisation or linear layer lacking its weight or its bias.  A model
    without convolutions never has the configured initialiser looked up. *)
Theorem init_weights_fails_iff (model : list module) :
  (existsb (rejected nn_init_defines conf) model = false ->
   exists model', init_weights' model = Ok model'
                  /\ length model' = length model)
  /\ (existsb (rejected nn_init_defines conf) model = true ->
      init_weights' model = Err AttributeError)
  /\ (Forall (fun m => m_class m <> Conv2d) model ->
      init_weights' model
      = init_weights (fun _ => false) gain_relu gain_leaky_relu conf model).
Proof.
  split; [|split].
  - induction model as [|m model IH]; intros H.
    + exists []. split; reflexivity.
    + simpl in H. apply orb_false_iff in H as [Hm Hrest].
      destruct (init_module_cases m) as [(_ & m' & Hm' & _) | (Hr & _)];
        [|congruence].
      destruct (IH Hrest) as (rest & Hr & Hlen).
      exists (m' :: rest). unfold init_weights', init_module' in *. simpl.
      rewrite Hm', Hr. simpl. split; [reflexivity | now rewrite Hlen].
  - induction model as [|m model IH]; intros H; [discriminate|].
    simpl in H. unfold init_weights', init_module' in *. simpl.
    destruct (init_module_cases m) as [(Hr & m' & Hm' & _) | (_ & He)].
    + unfold init_module' in Hm'. rewrite Hm'. cbn [bind].
      rewrite Hr in H. simpl in H. now rewrite (IH H).
    + unfold init_module' in He. now rewrite He.
  - induction 1 as [|m model Hm _ IH]; [reflexivity|].
    unfold init_weights' in *. simpl. rewrite IH.
    replace (init_module nn_init_defines gain_relu gain_leaky_relu conf m)
      with (init_module (fun _ => false) gain_relu gain_leaky_relu conf m);
      [reflexivity|].
    unfold init_module. destruct (m_class m); try reflexivity. contradiction.
Qed.

End InitWeightsFacts.

Lemma init_weights_leaves_witness :
  Forall2 initialised
    [{| m_name := "conv1"; m_class := Conv2d; m_weight := Some AsConstructed;
        m_bias := None |};
     {| m_name := "bn1"; m_class := ABN; m_weight := Some AsConstructed;
        m_bias := Some AsConstructed |}]
    [{| m_name := "conv1"; m_class := Conv2d;
        m_weight := Some (Drawn "xavier_normal_" (2 * 3)%Q); m_bias := None |};
     {| m_name := "bn1"; m_class := ABN; m_weight := Some (Constant 1);
        m_bias := Some (Constant 0) |}].
Proof.
  apply (init_weights_leaves (fun _ => true) 3%Q (fun s => s)
           {| weight_init := "xavier_normal"; weight_gain_multiplier := 2;
              activation := "relu"; leaky_relu_slope := 1 # 100 |}).
  reflexivity.
Defined.

Lemma init_weights_fails_iff_witness :
  init_weights (fun _ => false) 3%Q (fun s => s)
    {| weight_init := "no_such_init"; weight_gain_multiplier := 2;
       activation := "relu"; leaky_relu_slope := 1 # 100 |}
    [{| m_name := "conv1"; m_class := Conv2d; m_weight := Some AsConstructed;
        m_bias := None |}]
  = Err AttributeError.
Proof.
  destruct (init_weights_fails_iff (fun _ => false) 3%Q (fun s => s)
              {| weight_init := "no_such_init"; weight_gain_multiplier := 2;
                 activation := "relu"; leaky_relu_slope := 1 # 100 |}
              [{| m_name := "conv1"; m_class := Conv2d;
                  m_weight := Some AsConstructed; m_bias := None |}])
    as (_ & H & _).
  apply H. reflexivity.
Defined.

(** ** init_logger *)






(** ** The loops with their logging *)

Lemma log_stride_Ok (print_freq : Z) (i : nat) :
  print_freq <> 0%Z ->
  log_stride print_freq i
  = Ok (if (Z.of_nat i mod print_freq =? 0)%Z then [LogLine i] else []).
Proof.
  intros H. unfold log_stride, py_mod.
  destruct (print_freq =? 0)%Z eqn:E; [apply Z.eqb_eq in E; contradiction|].
  reflexivity.
Qed.

Lemma log_stride_zero (i : nat) : log_stride 0 i = Err ZeroDivisionError.
Proof. reflexivity. Qed.

Lemma issued_app (a b : list event) : issued (a ++ b) = issued a ++ issued b.
Proof. unfold issued. now rewrite map_app, concat_app. Qed.

Lemma log_lines_app (a b : list event) : log_lines (a ++ b) = log_lines a ++ log_lines b.
Proof. unfold log_lines. now rewrite map_app, concat_app. Qed.

Lemma scalar_steps_app (a b : list event) :
  scalar_steps (a ++ b) = scalar_steps a ++ scalar_steps b.
Proof. unfold scalar_steps. now rewrite map_app, concat_app. Qed.

Lemma scheduler_steps_app (a b : list event) :
  scheduler_steps (a ++ b) = scheduler_steps a ++ scheduler_steps b.
Proof. unfold scheduler_steps. now rewrite map_app, concat_app. Qed.

Lemma select_issued (calls : list call) :
  issued (map Issued calls) = calls
  /\ log_lines (map Issued calls) = []
  /\ scalar_steps (map Issued calls) = []
  /\ scheduler_steps (map Issued calls) = [].
Proof.
  unfold issued, log_lines, scalar_steps, scheduler_steps.
  induction calls as [|c calls (I1 & I2 & I3 & I4)]; simpl; [auto|].
  rewrite I1, I2, I3, I4. auto.
Qed.

Lemma select_logged (print_freq : Z) (i : nat) :
  let logged := if (Z.of_nat i mod print_freq =? 0)%Z then [LogLine i] else [] in
  issued logged = []
  /\ log_lines logged = List.filter (fun j => (Z.of_nat j mod print_freq =? 0)%Z) [i]
  /\ scalar_steps logged = []
  /\ scheduler_steps logged = [].
Proof. simpl. destruct (Z.of_nat i mod print_freq =? 0)%Z; auto. Qed.

Lemma validate_batches_refines (d : dist) (lgs : nat) (print_freq : Z) :
  print_freq <> 0%Z ->
  forall batches i m m' steps,
    validate_loop d lgs i batches m = Ok (m', steps) ->
    exists events,
      validate_batches d lgs print_freq i batches m = Ok (m', events)
      /\ issued events = concat steps
      /\ log_lines events
         = List.filter (fun j => (Z.of_nat j mod print_freq =? 0)%Z)
             (seq i (length batches))
      /\ scalar_steps events = []
      /\ scheduler_steps events = [].
Proof.
  intros Hpf. induction batches as [|b rest IH]; intros i m m' steps H.
  - simpl in H. injection H as <- <-. exists []. simpl. auto.
  - simpl in H. apply bind_Ok in H as ([m1 calls] & Hstep & H).
    apply bind_Ok in H as ([m2 steps'] & Hloop & H).
    cbn [fst snd] in *. injection H as <- <-.
    destruct (IH _ _ _ _ Hloop) as (events & Hev & Hi & Hl & Hs & Hp).
    simpl. rewrite Hstep. cbn [bind fst snd].
    rewrite (log_stride_Ok print_freq i Hpf). cbn [bind].
    rewrite Hev. cbn [bind fst snd]. eexists. split; [reflexivity|].
    destruct (select_issued calls) as (J1 & J2 & J3 & J4).
    destruct (select_logged print_freq i) as (K1 & K2 & K3 & K4).
    rewrite !issued_app, !log_lines_app, !scalar_steps_app, !scheduler_steps_app.
    rewrite J1, J2, J3, J4, K1, K2, K3, K4, Hi, Hl, Hs, Hp.
    repeat split; try reflexivity.
    cbn [app List.filter]. destruct (Z.of_nat i mod print_freq =? 0)%Z; reflexivity.
Qed.

Lemma validate_logged_refines (d : dist) (tb : bool) (print_freq : Z)
    (it : option nat) (dataset_len : nat) (val_loader : list batch) (v : validated) :
  validate d dataset_len val_loader = Ok v ->
  print_freq <> 0%Z ->
  (negb (is_initialized d) || (get_rank d =? 0) = true -> it <> None -> tb = true) ->
  exists events,
    validate_logged d tb print_freq it dataset_len val_loader = Ok (v_return v, events)
    /\ issued events = concat (v_steps v) ++ v_post v
    /\ log_lines events
       = List.filter (fun j => (Z.of_nat j mod print_freq =? 0)%Z)
           (seq 0 (length val_loader))
    /\ scalar_steps events
       = match it with
         | Some step =>
             if negb (is_initialized d) || (get_rank d =? 0)
             then [step; step; step] else []
         | None => []
         end.
Proof.
  intros Hv Hpf Htb. unfold validate in Hv. unfold validate_logged.
  destruct ((if is_initialized d then get_world_size d else 1) =? 0); [discriminate|].
  apply bind_Ok in Hv as ([m steps] & Hloop & Hv).
  destruct (validate_batches_refines d _ print_freq Hpf _ _ _ _ _ Hloop)
    as (events & Hev & Hi & Hl & Hs & _).
  rewrite Hev. cbn [bind fst snd] in *.
  destruct (last val_loader) as [input|]; [|discriminate].
  injection Hv as <-. cbn [v_return v_steps v_post].
  set (post := if (shape0 input =? 1) && _ then [NewGroup _] else []).
  assert (Hpost : exists post',
             (if (shape0 input =? 1)
                 && ((dataset_len mod (if is_initialized d then get_world_size d else 1)
                      <? (if is_initialized d then get_rank d else 0))
                     && (0 <? dataset_len mod (if is_initialized d
                                               then get_world_size d else 1)))
              then [Issued (NewGroup (seq 0 (dataset_len mod
                      (if is_initialized d then get_world_size d else 1))))]
              else []) = post'
             /\ issued post' = post /\ log_lines post' = []
             /\ scalar_steps post' = []).
  { unfold post. destruct ((shape0 input =? 1) && _); eexists; repeat split. }
  destruct Hpost as (post' & -> & Hp1 & Hp2 & Hp3).
  destruct it as [step|].
  - destruct (negb (is_initialized d) || (get_rank d =? 0)) eqn:Ecoord.
    + rewrite (Htb eq_refl) by discriminate. cbn [bind].
      eexists. split; [reflexivity|].
      rewrite !issued_app, !log_lines_app, !scalar_steps_app, Hi, Hl, Hs, Hp1, Hp2, Hp3.
      cbn. rewrite !app_nil_r. auto.
    + cbn [bind]. eexists. split; [reflexivity|].
      rewrite !issued_app, !log_lines_app, !scalar_steps_app, Hi, Hl, Hs, Hp1, Hp2, Hp3.
      cbn. rewrite !app_nil_r. auto.
  - cbn [bind]. eexists. split; [reflexivity|].
    rewrite !issued_app, !log_lines_app, !scalar_steps_app, Hi, Hl, Hs, Hp1, Hp2, Hp3.
    cbn. rewrite !app_nil_r. auto.
Qed.

(** X21.  Logging changes neither the result nor the protocol of an
    evaluation pass: with a print frequency other than zero, and the sink at
    hand wherever it is written, the pass with its log lines returns the
    same top-1 average and issues the same calls in the same order; it logs
    the batches whose index the frequency divides, and the coordinator
    writes its three scalars at the step it was given, a worker none. *)
Theorem validate_logging_transparent (d : dist) (tb : bool) (print_freq : Z)
    (it : option nat) (dataset_len : nat) (val_loader : list batch) (v : validated) :
  validate d dataset_len val_loader = Ok v ->
  print_freq <> 0%Z ->
  (negb (is_initialized d) || (get_rank d =? 0) = true -> it <> None -> tb = true) ->
  exists events,
    validate_logged d tb print_freq it dataset_len val_loader = Ok (v_return v, events)
    /\ issued events = concat (v_steps v) ++ v_post v
    /\ log_lines events
       = List.filter (fun j => (Z.of_nat j mod print_freq =? 0)%Z)
           (seq 0 (length val_loader))
    /\ scalar_steps events
       = match it with
         | Some step =>
             if negb (is_initialized d) || (get_rank d =? 0)
             then [step; step; step] else []
         | None => []
         end.
Proof. apply validate_logged_refines. Qed.

Lemma validate_logging_transparent_witness :
  exists ret events,
    validate_logged (val_worker (job 1 6 4) 6 0) true 10 (Some 5) 6 (nth 0 (job 1 6 4) [])
    = Ok (ret, events)
    /\ log_lines events = [0] /\ scalar_steps events = [5; 5; 5].
Proof.
  assert (Hv : exists v,
             validate (val_worker (job 1 6 4) 6 0) 6 (nth 0 (job 1 6 4) []) = Ok v).
  { eexists. vm_compute. reflexivity. }
  destruct Hv as [v Hv].
  destruct (validate_logging_transparent (val_worker (job 1 6 4) 6 0) true 10 (Some 5)
              6 (nth 0 (job 1 6 4) []) v Hv) as (events & He & _ & Hl & Hs).
  - discriminate.
  - reflexivity.
  - exists (v_return v), events. split; [exact He|]. split; [exact Hl | exact Hs].
Defined.





Lemma train_scalars_Ok (d : dist) (tb : bool) (log_hist : bool)
    (param_names : list string) (step i : nat) (m : meters) :
  (negb (is_initialized d) || (get_rank d =? 0) = true -> tb = true) ->
  exists events,
    train_scalars d tb log_hist param_names step i m = Ok events
    /\ issued events = [] /\ log_lines events = [] /\ scheduler_steps events = []
    /\ scalar_steps events
       = (if negb (is_initialized d) || (get_rank d =? 0) then repeat step 4 else []).
Proof.
  intros Htb. unfold train_scalars.
  destruct (negb (is_initialized d) || (get_rank d =? 0)).
  - rewrite (Htb eq_refl). eexists. split; [reflexivity|].
    rewrite issued_app, log_lines_app, scheduler_steps_app, scalar_steps_app.
    assert (Hh : forall names,
              let hs := map (fun name => AddHistogram name step) names in
              issued hs = [] /\ log_lines hs = [] /\ scheduler_steps hs = []
              /\ scalar_steps hs = []).
    { induction names as [|n names (H1 & H2 & H3 & H4)]; simpl; auto. }
    destruct (log_hist && (i mod 10 =? 0)).
    + destruct (Hh (List.filter histogram_wanted param_names)) as (H1 & H2 & H3 & H4).
      rewrite H1, H2, H3, H4. auto.
    + auto.
  - eexists. split; [reflexivity|]. auto.
Qed.

Lemma train_batches_refines (d : dist) (tb : bool) (mode : string) (print_freq : Z)
    (log_hist : bool) (param_names : list string) (epoch len : nat) :
  print_freq <> 0%Z ->
  (negb (is_initialized d) || (get_rank d =? 0) = true -> tb = true) ->
  forall batches i m m' steps,
    train_loop d i batches m = Ok (m', steps) ->
    exists events,
      train_batches d tb mode print_freq log_hist param_names epoch len i batches m
      = Ok (m', events)
      /\ issued events = concat steps
      /\ log_lines events
         = List.filter (fun j => (Z.of_nat j mod print_freq =? 0)%Z)
             (seq i (length batches))
      /\ scheduler_steps events
         = (if String.eqb mode "step"
            then map (fun j => j + epoch * len) (seq i (length batches)) else [])
      /\ scalar_steps events
         = (if negb (is_initialized d) || (get_rank d =? 0)
            then concat (map (fun j => repeat (j + epoch * len) 4)
                           (seq i (length batches)))
            else []).
Proof.
  intros Hpf Htb. induction batches as [|b rest IH]; intros i m m' steps H.
  - simpl in H. injection H as <- <-. exists []. simpl.
    destruct (String.eqb mode "step"), (negb (is_initialized d) || (get_rank d =? 0)); auto.
  - simpl in H. apply bind_Ok in H as ([m1 calls] & Hstep & H).
    apply bind_Ok in H as ([m2 steps'] & Hloop & H).
    cbn [fst snd] in *. injection H as <- <-.
    destruct (IH _ _ _ _ Hloop) as (events & Hev & Hi & Hl & Hp & Hs).
    destruct (train_scalars_Ok d tb log_hist param_names (i + epoch * len) i m1 Htb)
      as (scalars & Hsc & S1 & S2 & S3 & S4).
    simpl. rewrite Hstep. cbn [bind fst snd].
    rewrite (log_stride_Ok print_freq i Hpf). cbn [bind].
    rewrite Hsc. cbn [bind]. rewrite Hev. cbn [bind fst snd].
    eexists. split; [reflexivity|].
    destruct (select_issued calls) as (J1 & J2 & J3 & J4).
    destruct (select_logged print_freq i) as (K1 & K2 & K3 & K4).
    rewrite !issued_app, !log_lines_app, !scalar_steps_app, !scheduler_steps_app.
    rewrite J1, J2, J3, J4, K1, K2, K3, K4, S1, S2, S3, S4, Hi, Hl, Hs, Hp.
    repeat split.
    + cbn [issued map concat]. unfold issued.
      destruct (String.eqb mode "step"); reflexivity.
    + unfold log_lines at 1. cbn [List.filter app].
      destruct (String.eqb mode "step"), (Z.of_nat i mod print_freq =? 0)%Z; reflexivity.
    + destruct (String.eqb mode "step"); reflexivity.
    + unfold scalar_steps at 1.
      destruct (String.eqb mode "step"),
        (negb (is_initialized d) || (get_rank d =? 0)); reflexivity.
Qed.

(** X23.  What an epoch of training does besides its metrics: with a print
    frequency other than zero, the loop with its logging returns the meters
    of the metric blocks alone and issues the same calls; the scheduler is
    stepped once with the epoch in mode "epoch", once per batch at position
    [i + epoch * len] in mode "step", and never in any other mode; the
    coordinator writes four scalars per batch at that same position, a
    worker none; and two batches of the same or of different epochs never
    share a position. *)
Theorem train_epoch_events (d : dist) (tb : bool) (mode : string) (print_freq : Z)
    (log_hist : bool) (param_names : list string) (epoch : nat)
    (train_loader : list batch) (m : meters) (steps : list (list call)) :
  train d train_loader = Ok (m, steps) ->
  print_freq <> 0%Z ->
  (negb (is_initialized d) || (get_rank d =? 0) = true -> tb = true) ->
  let len := length train_loader in
  let position i := i + epoch * len in
  (exists events,
     train_logged d tb mode print_freq log_hist param_names epoch train_loader
     = Ok (m, events)
     /\ issued events = concat steps
     /\ scheduler_steps events
        = (if String.eqb mode "epoch" then [epoch]
           else if String.eqb mode "step" then map position (seq 0 len)
           else [])
     /\ scalar_steps events
        = (if negb (is_initialized d) || (get_rank d =? 0)
           then concat (map (fun i => repeat (position i) 4) (seq 0 len))
           else [])
     /\ log_lines events
        = List.filter (fun j => (Z.of_nat j mod print_freq =? 0)%Z) (seq 0 len))
  /\ forall epoch' i i', i < len -> i' < len ->
       i + epoch * len = i' + epoch' * len -> epoch' = epoch /\ i' = i.
Proof.
  intros Htrain Hpf Htb len position. split.
  - unfold train in Htrain.
    destruct (train_batches_refines d tb mode print_freq log_hist param_names epoch len
                Hpf Htb _ _ _ _ _ Htrain) as (events & Hev & Hi & Hl & Hp & Hs).
    unfold train_logged. fold len. rewrite Hev. cbn [bind fst snd].
    eexists. split; [reflexivity|].
    rewrite issued_app, scheduler_steps_app, scalar_steps_app, log_lines_app.
    rewrite Hi, Hl, Hp, Hs.
    destruct (String.eqb mode "epoch") eqn:E.
    + apply String.eqb_eq in E. subst mode. simpl. auto.
    + simpl. auto.
  - intros epoch' i i' Hi Hi' Heq.
    assert (epoch' = epoch) by nia. subst. split; [reflexivity | lia].
Qed.

Lemma train_epoch_events_witness :
  exists m events,
    train_logged (train_worker (job 1 6 4) 0) true "step" 10 false [] 3 (nth 0 (job 1 6 4) [])
    = Ok (m, events)
    /\ scheduler_steps events = [6; 7].
Proof.
  assert (Ht : exists m steps,
             train (train_worker (job 1 6 4) 0) (nth 0 (job 1 6 4) []) = Ok (m, steps)).
  { do 2 eexists. vm_compute. reflexivity. }
  destruct Ht as (m & steps & Ht).
  destruct (train_epoch_events (train_worker (job 1 6 4) 0) true "step" 10 false [] 3
              (nth 0 (job 1 6 4) []) m steps Ht) as [(events & He & _ & Hs & _) _].
  - discriminate.
  - reflexivity.
  - exists m, events. split; [exact He | exact Hs].
Defined.

(** X24.  The metrics sink is written by the process that created it and
    by no other: with the rank and the sink that [main] sets up, the guard
    before every [tb.add_scalar] holds exactly when [tb] is a writer, so a
    call is never made on the [None] a worker holds. *)
Theorem sink_guard_matches_setup (environ_world_size : option Z) (launched_rank : nat)
    (d : dist) (log_hist : bool) (param_names : list string) (step i : nat)
    (m : meters) :
  let setup := main_setup environ_world_size launched_rank in
  let tb := snd setup in
  is_initialized d = fst (fst setup) ->
  get_rank d = launched_rank ->
  negb (is_initialized d) || (get_rank d =? 0) = tb
  /\ (if is_initialized d then get_rank d else 0) = snd (fst setup)
  /\ exists events,
       train_scalars d tb log_hist param_names step i m = Ok events
       /\ (tb = false -> events = [])
       /\ (tb = true -> 4 <= length events).
Proof.
  unfold main_setup. cbn [fst snd].
  set (distributed := fst (main_world_size environ_world_size)).
  intros Hinit Hrank.
  assert (Hguard : negb (is_initialized d) || (get_rank d =? 0)
                   = ((if distributed then launched_rank else 0) =? 0)).
  { rewrite Hinit, Hrank. destruct distributed; reflexivity. }
  split; [exact Hguard|]. split; [now rewrite Hinit, Hrank|].
  unfold train_scalars. rewrite Hguard.
  destruct ((if distributed then launched_rank else 0) =? 0).
  - eexists. split; [reflexivity|]. split; [discriminate|].
    intros _. rewrite length_app. simpl. lia.
  - eexists. split; [reflexivity|]. split; [reflexivity | discriminate].
Qed.

Lemma sink_guard_matches_setup_witness :
  negb (is_initialized (val_worker (job 3 10 3) 10 2))
  || (get_rank (val_worker (job 3 10 3) 10 2) =? 0) = false.
Proof.
  destruct (sink_guard_matches_setup (Some 3%Z) 2 (val_worker (job 3 10 3) 10 2)
              false [] 0 0 meters_init) as [H _].
  - reflexivity.
  - reflexivity.
  - exact H.
Defined.

(** ** The loaders' batch size *)

(** X25.  The batch size handed to the loaders: with a positive world size
    the workers together process at most the configured batch per step and
    fall short of it by less than one sample per worker; without
    WORLD_SIZE in the environment each batch is the configured one; and
    WORLD_SIZE=0 is taken as a world size of zero and the division
    raises. *)
Theorem main_batch_size_bounds (environ_world_size : option Z) (batch_size : Z) :
  (environ_world_size = None -> main_batch_size environ_world_size batch_size = Ok batch_size)
  /\ (environ_world_size = Some 0%Z ->
      main_batch_size environ_world_size batch_size = Err ZeroDivisionError)
  /\ (forall world_size, environ_world_size = Some world_size -> (0 < world_size)%Z ->
        exists per_worker,
          main_batch_size environ_world_size batch_size = Ok per_worker
          /\ (world_size * per_worker <= batch_size < world_size * per_worker + world_size)%Z
          /\ ((batch_size < world_size)%Z -> (0 <= batch_size)%Z -> per_worker = 0%Z)).
Proof.
  split; [|split].
  - intros ->. unfold main_batch_size, per_worker_batch_size. simpl.
    now rewrite Z.div_1_r.
  - intros ->. reflexivity.
  - intros world_size -> Hpos. unfold main_batch_size, per_worker_batch_size. simpl.
    destruct (world_size =? 0)%Z eqn:E; [apply Z.eqb_eq in E; lia|].
    eexists. split; [reflexivity|]. split.
    + pose proof (Z.mul_div_le batch_size world_size Hpos).
      pose proof (Z.mul_succ_div_gt batch_size world_size Hpos). lia.
    + intros Hlt Hnn. apply Z.div_small. lia.
Qed.

Lemma main_batch_size_bounds_witness :
  main_batch_size (Some 3%Z) 256 = Ok 85%Z.
Proof.
  destruct (main_batch_size_bounds (Some 3%Z) 256) as (_ & _ & H).
  destruct (H 3%Z eq_refl) as (per & Hper & _); [lia|].
  rewrite Hper. vm_compute in Hper. injection Hper as <-. reflexivity.
Defined.
